(** * workflow-run-history: run normalisation, grouping and percentile engine

    Shallow embedding of [src/index.ts] and of its near-duplicate
    [src/unnamed/part_000].  The two files share [getWorkflowRuns] (up to the
    [created] query parameter, which only narrows what the paginated source
    returns) and differ in the [WorkflowGroup] comparators, in the workflow
    resolver and in the guards of the report assembler.  What they share is
    modelled once; what differs lives in [Module IndexTs] and
    [Module Part000].

    Modelling conventions.
    - JavaScript numbers are exact rationals ([Q]) or integers ([Z]); the
      non-finite values that the code can reach ([NaN], [-Infinity]) are
      constructors of [number].  The functions below do not round
      intermediate quotients and products to double precision.  The last
      definitions evaluate the same numeric expressions in binary64, and the
      last section compares the two: they agree on the concrete inputs used
      below, and they can differ by one where the exact value is an integer
      (58% of 50 runs reads index 28, not 29).  The theorems about all
      inputs are worded so that they hold of the double-precision
      computation as well (order, range, membership, and the values that
      rounding to nearest reproduces); a lemma that fixes an exact integer
      says "in exact arithmetic".
    - A timestamp string is represented by the millisecond value that
      [new Date(s).getTime()] yields for it.
    - [undefined] is [None]; a thrown exception is an explicit outcome.
      The [github], [context] and [core] arguments are taken to be present,
      so the guards that throw on a missing one are not reached.
    - A [Map] is an association list in insertion order, which is the order
      [keys()] and [values()] iterate in. *)

From Stdlib Require Import String List ZArith QArith Qround Bool Lia.
From Stdlib Require Import Sorted Permutation.
From Stdlib Require SpecFloat.
Import ListNotations.

Local Open Scope Z_scope.

(** ** JavaScript primitives used by the source *)

(** The values a numeric expression of the source can take. *)
Inductive number : Type :=
| Num (q : Q)
| NaN
| PosInfinity
| NegInfinity.

(** [x / y] on finite operands. *)
Definition js_div (x y : Q) : number :=
  if Qeq_bool y 0 then
    if Qeq_bool x 0 then NaN
    else if Qle_bool 0 x then PosInfinity else NegInfinity
  else Num (Qred (x / y)).

(** [a * 100]. *)
Definition js_times100 (a : number) : number :=
  match a with
  | Num q => Num (Qred (q * 100))
  | other => other
  end.

(** [Math.ceil], [Math.round] (half-way cases go up) and [Math.floor];
    they leave non-finite values alone. *)
Definition Math_ceil (a : number) : number :=
  match a with
  | Num q => Num (inject_Z (Qceiling q))
  | other => other
  end.

Definition Math_round (a : number) : number :=
  match a with
  | Num q => Num (inject_Z (Qfloor (q + (1 # 2))))
  | other => other
  end.

Definition Math_floor (q : Q) : Z := Qfloor q.

(** [Array.prototype.sort(compareFn)] on numbers: a stable sort that puts
    [a] before [b] when [compareFn(a, b) <= 0]. *)
Fixpoint sort_insert (compareFn : Z -> Z -> Z) (x : Z) (l : list Z) : list Z :=
  match l with
  | [] => [x]
  | y :: l' =>
      if compareFn x y <=? 0 then x :: y :: l'
      else y :: sort_insert compareFn x l'
  end.

Definition sort (compareFn : Z -> Z -> Z) (l : list Z) : list Z :=
  fold_right (sort_insert compareFn) [] l.

(** [arr[index]] for an integral index: [undefined] out of range. *)
Definition array_get {A : Type} (arr : list A) (index : Z) : option A :=
  if index <? 0 then None else nth_error arr (Z.to_nat index).

(** [Array.prototype.findIndex]: the first index whose element satisfies
    the predicate, [-1] when there is none. *)
Fixpoint findIndex_from (pred : Z -> bool) (l : list Z) (i : Z) : Z :=
  match l with
  | [] => -1
  | x :: l' => if pred x then i else findIndex_from pred l' (i + 1)
  end.

Definition findIndex (pred : Z -> bool) (l : list Z) : Z :=
  findIndex_from pred l 0.

(** [value >= durationSeconds]. *)
Definition geb (value durationSeconds : Z) : bool := durationSeconds <=? value.

(** ** Data model *)

Record WorkflowRun : Type := mkWorkflowRun {
  id : Z;
  status : string;
  created_at : Z;
  updated_at : Z;
  durationSeconds : Z
}.

Record WorkflowGroup : Type := mkWorkflowGroup {
  runs : list WorkflowRun
}.

Definition set_status (workflowRun : WorkflowRun) (value : string) : WorkflowRun :=
  mkWorkflowRun (id workflowRun) value (created_at workflowRun)
                (updated_at workflowRun) (durationSeconds workflowRun).

(** [this.runs.map(run => run.durationSeconds)]. *)
Definition durations_of (g : WorkflowGroup) : list Z :=
  map durationSeconds (runs g).

(** A run that only carries a duration, for concrete groups. *)
Definition run_lasting (d : Z) : WorkflowRun :=
  mkWorkflowRun 0 "success" 0 (d * 1000) d.

Definition group_of_durations (ds : list Z) : WorkflowGroup :=
  mkWorkflowGroup (map run_lasting ds).

(** ** Run Normalizer (identical in both files) *)

(** A raw entry of [listWorkflowRuns]. *)
Inductive conclusion_value : Type :=
| ConclusionUndefined
| ConclusionNull
| Conclusion (value : string).

Module Response.
Record t : Type := mk {
  id : Z;
  status : string;
  conclusion : conclusion_value;
  created_at : Z;
  updated_at : Z
}.
End Response.

(** What [github.paginate.iterator] yields: pages, until the listing ends or
    a request throws. *)
Inductive paginated : Type :=
| EndOfPages
| Page (data : list Response.t) (rest : paginated)
| FetchError (error : string).

Definition not_finished : list string :=
  ["in_progress"; "queued"; "requested"; "waiting"; "pending"]%string.

(** [Array.prototype.includes] on strings. *)
Definition includes (l : list string) (s : string) : bool :=
  existsb (String.eqb s) l.

(** The body of the inner [for] loop: [None] is [continue], [Some] is the
    record pushed on [workflowRuns]. *)
Definition normalizeRun (responseWorkflowRun : Response.t) : option WorkflowRun :=
  match Response.conclusion responseWorkflowRun with
  | ConclusionUndefined => None
  | conclusion =>
      let status := Response.status responseWorkflowRun in
      if includes not_finished status then None
      else
        let createdAt := Response.created_at responseWorkflowRun in
        let updatedAt := Response.updated_at responseWorkflowRun in
        let durationSeconds :=
          Math_floor (inject_Z (updatedAt - createdAt) / 1000) in
        let workflowRun :=
          mkWorkflowRun (Response.id responseWorkflowRun) status
                        createdAt updatedAt durationSeconds in
        match conclusion with
        | Conclusion value => Some (set_status workflowRun value)
        | _ => Some workflowRun
        end
  end.

(** The [for await] loop inside [try]/[catch]: the runs pushed so far, and
    the messages handed to [core.error].  A failing request ends the loop
    and keeps what was collected. *)
Fixpoint collectRuns (source : paginated) : list WorkflowRun * list string :=
  match source with
  | EndOfPages => ([], [])
  | Page responseWorkflowRuns rest =>
      let (workflowRuns, errors) := collectRuns rest in
      (flat_map (fun r => match normalizeRun r with
                          | Some workflowRun => [workflowRun]
                          | None => []
                          end) responseWorkflowRuns ++ workflowRuns,
       errors)
  | FetchError error => ([], [error])
  end.

(** ** Status Grouping Aggregator (identical in both files) *)

(** [Map<string, WorkflowGroup>], in insertion order. *)
Definition GroupedWorkflowRuns : Type := list (string * WorkflowGroup).

Fixpoint Map_get (m : GroupedWorkflowRuns) (key : string) : option WorkflowGroup :=
  match m with
  | [] => None
  | (k, v) :: m' => if String.eqb k key then Some v else Map_get m' key
  end.

Definition Map_has (m : GroupedWorkflowRuns) (key : string) : bool :=
  match Map_get m key with
  | Some _ => true
  | None => false
  end.

(** [set] overwrites an existing entry where it stands and appends a new
    one. *)
Fixpoint Map_set (m : GroupedWorkflowRuns) (key : string) (value : WorkflowGroup)
  : GroupedWorkflowRuns :=
  match m with
  | [] => [(key, value)]
  | (k, v) :: m' =>
      if String.eqb k key then (k, value) :: m'
      else (k, v) :: Map_set m' key value
  end.

Definition Map_keys (m : GroupedWorkflowRuns) : list string := map fst m.
Definition Map_values (m : GroupedWorkflowRuns) : list WorkflowGroup := map snd m.

(** The callback of [workflowRuns.forEach].  The group is an object held by
    the map, so [group.runs.push] is an update of the entry in place. *)
Definition groupRun_step (groupedRuns : GroupedWorkflowRuns) (groupRun : WorkflowRun)
  : GroupedWorkflowRuns :=
  let status := status groupRun in
  let groupedRuns :=
    if negb (Map_has groupedRuns status)
    then Map_set groupedRuns status (mkWorkflowGroup [])
    else groupedRuns in
  match Map_get groupedRuns status with
  | Some group =>
      Map_set groupedRuns status (mkWorkflowGroup (runs group ++ [groupRun]))
  | None => groupedRuns
  end.

Definition groupRuns (workflowRuns : list WorkflowRun) : GroupedWorkflowRuns :=
  fold_left groupRun_step workflowRuns [].

Definition getWorkflowRuns (source : paginated) : GroupedWorkflowRuns * list string :=
  let (workflowRuns, errors) := collectRuns source in
  (groupRuns workflowRuns, errors).

(** [Array.from(values()).reduce((total, group) => total + group.runs.length, 0)]. *)
Definition totalRuns_of (groupedWorkflowRuns : GroupedWorkflowRuns) : nat :=
  fold_left (fun total group => (total + length (runs group))%nat)
            (Map_values groupedWorkflowRuns) 0%nat.

(** ** Report sections *)

Inductive heading : Type :=
| WorkflowRunHistory (totalRuns : nat)
| HistoryOfName (name : string)
| HistoryOfWorkflow (workflow_id : Z)
| TotalRuns (totalRuns : nat)
| SuccessRate (rate : number) (successes outOf : nat)
| SuccessfulRuns (count : nat)
| FailingRuns (count : nat)
| RunStatusBreakdown.

(** One call on [core.summary]. *)
Inductive section : Type :=
| addHeading (h : heading)
| addPercentileTable (p99 p90 p50 : option Z)
| addBreakdownTable (rows : list (string * number)).

(** How the [then] callback ends: [core.summary.write()] was reached, or a
    property of [undefined] was read. *)
Inductive outcome : Type :=
| Written
| TypeError.

Definition nat_Q (n : nat) : Q := inject_Z (Z.of_nat n).

(** ** Workflow Resolver *)

(** The state a resolver is in after some number of lookups. *)
Inductive resolution : Type :=
| Resolved (workflow_id : Z) (lookups : nat)
| Rejected (lookups : nat)
| StillRetrying (lookups : nat).

(** ** [src/index.ts]: percentile group, resolver, report assembler *)

Module IndexTs.

Definition getNthPercentileDuration (g : WorkflowGroup) (percentile : Q)
  : option Z :=
  let durations := durations_of g in
  let sortedDurations := sort (fun a b => a - b) durations in
  let index :=
    Math_floor ((percentile / 100) * inject_Z (Z.of_nat (length sortedDurations))) in
  array_get sortedDurations index.

Definition getPercentileForDuration (g : WorkflowGroup) (durationSeconds : Z)
  : number :=
  let durations := durations_of g in
  let sortedDurations := sort (fun a b => a - b) durations in
  let index := findIndex (fun value => geb value durationSeconds) sortedDurations in
  let percentile :=
    js_times100 (js_div (inject_Z index)
                        (inject_Z (Z.of_nat (length sortedDurations)))) in
  Math_ceil percentile.

(** [groupedWorkflowRuns.get(status)!.runs.length] for a [status] taken
    from [keys()]; the entry is always there. *)
Definition runs_length (groupedWorkflowRuns : GroupedWorkflowRuns) (status : string)
  : nat :=
  match Map_get groupedWorkflowRuns status with
  | Some group => length (runs group)
  | None => 0%nat
  end.

(** The [while (workflow_id === 0)] loop.  [getWorkflowRun n] is the
    [workflow_id] returned by the call made after [n] earlier ones, [None]
    when that call throws.  [fuel] is the number of iterations that are
    observed; the loop itself has no counter. *)
Fixpoint resolveWorkflowId (getWorkflowRun : nat -> option Z) (fuel : nat)
         (lookups : nat) (workflow_id : Z) {struct fuel} : resolution :=
  if workflow_id =? 0 then
    match fuel with
    | O => StillRetrying lookups
    | S fuel' =>
        match getWorkflowRun lookups with
        | Some data_workflow_id =>
            resolveWorkflowId getWorkflowRun fuel' (S lookups) data_workflow_id
        | None =>
            (* setTimeout(resolve, 1000); console.log("retrying...") *)
            resolveWorkflowId getWorkflowRun fuel' (S lookups) workflow_id
        end
    end
  else Resolved workflow_id lookups.

(** The callback passed to [getWorkflowRuns(...).then]. *)
Definition report (groupedWorkflowRuns : GroupedWorkflowRuns)
  : list section * outcome :=
  let totalRuns := totalRuns_of groupedWorkflowRuns in
  let summary := [addHeading (WorkflowRunHistory totalRuns)] in
  match Map_get groupedWorkflowRuns "success",
        Map_get groupedWorkflowRuns "failure" with
  | Some success, Some failure =>
      let successes := length (runs success) in
      let failures := length (runs failure) in
      let table :=
        map (fun status =>
               (status,
                js_times100 (js_div (nat_Q (runs_length groupedWorkflowRuns status))
                                    (nat_Q totalRuns))))
            (Map_keys groupedWorkflowRuns) in
      (summary ++
       [addHeading
          (SuccessRate
             (Math_round
                (js_times100 (js_div (nat_Q successes)
                                     (nat_Q (successes + failures)))))
             successes (successes + failures));
        addHeading (SuccessfulRuns successes);
        addPercentileTable (getNthPercentileDuration success 99)
                           (getNthPercentileDuration success 90)
                           (getNthPercentileDuration success 50);
        addHeading (FailingRuns failures);
        addPercentileTable (getNthPercentileDuration failure 99)
                           (getNthPercentileDuration failure 90)
                           (getNthPercentileDuration failure 50);
        addHeading RunStatusBreakdown;
        addBreakdownTable table],
       Written)
  | _, _ => (summary, TypeError)
  end.

(** [summarizeHistory]: resolve, list the runs of the workflow, report.
    [None] while the resolver has not left its loop. *)
Definition summarizeHistory (getWorkflowRun : nat -> option Z) (fuel : nat)
           (listWorkflowRuns : Z -> paginated)
  : option (list section * outcome) :=
  match resolveWorkflowId getWorkflowRun fuel 0 0 with
  | Resolved workflow_id _ =>
      Some (report (fst (getWorkflowRuns (listWorkflowRuns workflow_id))))
  | _ => None
  end.

End IndexTs.

(** ** [src/unnamed/part_000]: percentile group, resolver, report assembler *)

Module Part000.

Definition getNthPercentileDuration (g : WorkflowGroup) (percentile : Q)
  : option Z :=
  let durations := durations_of g in
  let sortedDurations := sort (fun a b => b - a) durations in
  let index :=
    Math_floor ((percentile / 100) * inject_Z (Z.of_nat (length sortedDurations))) in
  array_get sortedDurations index.

Definition getPercentileForDuration (g : WorkflowGroup) (durationSeconds : Z)
  : number :=
  let durations := durations_of g in
  let sortedDurations := sort (fun a b => b - a) durations in
  let index := findIndex (fun value => geb value durationSeconds) sortedDurations in
  let percentile :=
    js_times100 (js_div (inject_Z index)
                        (inject_Z (Z.of_nat (length sortedDurations)))) in
  Math_ceil percentile.

(** [groupedWorkflowRuns.get(status)!.runs.length] for a [status] taken
    from [keys()]; the entry is always there. *)
Definition runs_length (groupedWorkflowRuns : GroupedWorkflowRuns) (status : string)
  : nat :=
  match Map_get groupedWorkflowRuns status with
  | Some group => length (runs group)
  | None => 0%nat
  end.

(** A single awaited lookup; when it throws, [summarizeHistory] rejects. *)
Definition resolveWorkflowId (getWorkflowRun : nat -> option Z) : resolution :=
  match getWorkflowRun 0%nat with
  | Some data_workflow_id => Resolved data_workflow_id 1
  | None => Rejected 1
  end.

(** The first heading; [workflowName] is [workflowYaml["name"]] when
    [fetchWorkflowYaml] produced one. *)
Definition title (workflowName : option string) (workflow_id : Z) : section :=
  match workflowName with
  | Some name => addHeading (HistoryOfName name)
  | None => addHeading (HistoryOfWorkflow workflow_id)
  end.

(** The callback passed to [getWorkflowRuns(...).then]. *)
Definition report (groupedWorkflowRuns : GroupedWorkflowRuns)
  : list section * outcome :=
  let totalRuns := totalRuns_of groupedWorkflowRuns in
  let success := Map_get groupedWorkflowRuns "success" in
  let failure := Map_get groupedWorkflowRuns "failure" in
  ([addHeading (TotalRuns totalRuns)]
   ++ match success, failure with
      | Some success, Some failure =>
          let successes := length (runs success) in
          let failures := length (runs failure) in
          if (0 <? successes + failures)%nat then
            [addHeading
               (SuccessRate
                  (Math_round
                     (js_times100 (js_div (nat_Q successes)
                                          (nat_Q (successes + failures)))))
                  successes (successes + failures))]
          else []
      | _, _ => []
      end
   ++ match success with
      | Some success =>
          if (0 <? length (runs success))%nat then
            [addHeading (SuccessfulRuns (length (runs success)));
             addPercentileTable (getNthPercentileDuration success 99)
                                (getNthPercentileDuration success 90)
                                (getNthPercentileDuration success 50)]
          else []
      | None => []
      end
   ++ match failure with
      | Some failure =>
          if (0 <? length (runs failure))%nat then
            [addHeading (FailingRuns (length (runs failure)));
             addPercentileTable (getNthPercentileDuration failure 99)
                                (getNthPercentileDuration failure 90)
                                (getNthPercentileDuration failure 50)]
          else []
      | None => []
      end
   ++ (if (0 <? totalRuns)%nat then
         let table :=
           map (fun status =>
                  (status,
                   Math_ceil
                     (js_times100
                        (js_div (nat_Q (runs_length groupedWorkflowRuns status))
                                (nat_Q totalRuns)))))
               (Map_keys groupedWorkflowRuns) in
         [addHeading RunStatusBreakdown; addBreakdownTable table]
       else []),
   Written).

(** [summarizeHistory]: resolve, title, list the runs, report.  [None]
    when the lookup threw. *)
Definition summarizeHistory (getWorkflowRun : nat -> option Z)
           (workflowName : option string) (listWorkflowRuns : Z -> paginated)
  : option (list section * outcome) :=
  match resolveWorkflowId getWorkflowRun with
  | Resolved workflow_id _ =>
      let (sections, result) :=
        report (fst (getWorkflowRuns (listWorkflowRuns workflow_id))) in
      Some (title workflowName workflow_id :: sections, result)
  | _ => None
  end.

End Part000.

(** ** The queries as the specification words them (§4.3) *)



(** The count of member durations strictly below [d]. *)
Definition count_below (d : Z) (l : list Z) : nat :=
  length (filter (fun value => value <? d) l).

(** [ceil(index / n * 100)]. *)
Definition spec_percent (index : Z) (n : nat) : Z :=
  Qceiling (inject_Z index / nat_Q n * 100).

(** ** Auxiliary notions used to state the properties *)

(** Every raw entry that the paginated source yielded. *)
Fixpoint entries_of (source : paginated) : list Response.t :=
  match source with
  | EndOfPages => []
  | Page data rest => data ++ entries_of rest
  | FetchError _ => []
  end.

(** The status an entry is grouped under when it is retained. *)
Definition effective_status (r : Response.t) : string :=
  match Response.conclusion r with
  | Conclusion value => value
  | _ => Response.status r
  end.

(** The members a status has among the normalized runs, in arrival order. *)
Definition members (workflowRuns : list WorkflowRun) (key : string)
  : list WorkflowRun :=
  filter (fun run => String.eqb (status run) key) workflowRuns.

(** The distinct elements of a list, in order of first occurrence. *)
Fixpoint first_seen (l : list string) : list string :=
  match l with
  | [] => []
  | k :: l' => k :: filter (fun k' => negb (String.eqb k' k)) (first_seen l')
  end.

(** The sum of the group sizes. *)
Definition sizes (m : GroupedWorkflowRuns) : nat :=
  list_sum (map (fun entry => length (runs (snd entry))) m).

(** [m] holds exactly the non-empty classes of [workflowRuns], one entry per
    status. *)
Definition grouped_by (m : GroupedWorkflowRuns) (workflowRuns : list WorkflowRun)
  : Prop :=
  NoDup (Map_keys m)
  /\ forall key,
      Map_get m key = match members workflowRuns key with
                      | [] => None
                      | group => Some (mkWorkflowGroup group)
                      end.

(** ** Concrete inputs *)


Definition queued_conclusion : Response.t :=
  Response.mk 2 "completed" (Conclusion "queued") 0 5000.

Definition finished_entry : Response.t :=
  Response.mk 3 "completed" (Conclusion "failure") 1000 4500.

Definition all_green : paginated :=
  Page [Response.mk 5 "completed" (Conclusion "success") 0 10000] EndOfPages.

Definition one_green_two_red : paginated :=
  Page [Response.mk 6 "completed" (Conclusion "success") 0 10000;
        Response.mk 7 "completed" (Conclusion "failure") 0 20000]
       (Page [Response.mk 8 "completed" (Conclusion "failure") 0 30000]
             EndOfPages).

(** A lookup that throws on every call, and one that throws twice and then
    answers workflow 7. *)
Definition always_failing : nat -> option Z := fun _ => None.

Definition third_time_lucky : nat -> option Z :=
  fun n => if (n <? 2)%nat then None else Some 7.

(** The resolver has left its loop, with an identifier or with an error. *)
Definition terminated (r : resolution) : bool :=
  match r with
  | Resolved _ _ => true
  | Rejected _ => true
  | StillRetrying _ => false
  end.

Definition one_page : paginated :=
  Page [finished_entry; Response.mk 4 "in_progress" ConclusionNull 0 0] EndOfPages.

Definition two_runs : WorkflowGroup := group_of_durations [10; 20].

Definition three_runs : WorkflowGroup := group_of_durations [30; 10; 20].

(** ** [fetchWorkflowYaml] and the title of [src/unnamed/part_000] *)

(** What an awaited call does: it throws, or it returns. *)
Inductive awaited (A : Type) : Type :=
| Throws
| Returns (data : A).

Arguments Throws {A}.
Arguments Returns {A} data.

(** [yamlContent.data]: an array (a directory listing), or one entry with
    its [type] and [content]. *)
Inductive content_data : Type :=
| ContentArray
| ContentEntry (type content : string).

(** A value parsed by [yaml.load], as far as the caller looks at it: [null],
    or a value with its ["name"] property, [None] when it has none. *)
Inductive parsed_yaml : Type :=
| YamlNull
| YamlValue (name : option string).

(** The body of the [try] block.  [getWorkflow] is the outcome of
    [github.rest.actions.getWorkflow] with its [data.path], [getContent]
    that of [github.rest.repos.getContent] for a path, [yaml_load] that of
    [yaml.load] for a content ([None] is [undefined]).  [Returns None] is an
    exit without a parsed value. *)
Definition fetchWorkflowYaml_try (getWorkflow : awaited string)
           (getContent : string -> awaited content_data)
           (yaml_load : string -> awaited (option parsed_yaml))
  : awaited (option parsed_yaml) :=
  match getWorkflow with
  | Throws => Throws
  | Returns path =>
      if String.eqb path "" then Returns None
      else
        match getContent path with
        | Throws => Throws
        | Returns ContentArray => Returns None
        | Returns (ContentEntry type content) =>
            if String.eqb type "file" then yaml_load content
            else Returns None
        end
  end.

(** [fetchWorkflowYaml]: the [catch] logs the error and the function ends
    with [return undefined]. *)
Definition fetchWorkflowYaml (getWorkflow : awaited string)
           (getContent : string -> awaited content_data)
           (yaml_load : string -> awaited (option parsed_yaml))
  : awaited (option parsed_yaml) :=
  match fetchWorkflowYaml_try getWorkflow getContent yaml_load with
  | Throws => Returns None
  | Returns parsedYaml => Returns parsedYaml
  end.

(** The first heading of [summarizeHistory]:
    [workflowYaml !== undefined && workflowYaml["name"] !== undefined]
    reads a property of [null] when the parser returned [null]. *)
Definition titleHeading (workflowYaml : option parsed_yaml) (workflow_id : Z)
  : awaited section :=
  match workflowYaml with
  | None => Returns (addHeading (HistoryOfWorkflow workflow_id))
  | Some YamlNull => Throws
  | Some (YamlValue (Some name)) => Returns (addHeading (HistoryOfName name))
  | Some (YamlValue None) => Returns (addHeading (HistoryOfWorkflow workflow_id))
  end.

(** The lookup followed by the heading. *)
Definition fetchTitle (getWorkflow : awaited string)
           (getContent : string -> awaited content_data)
           (yaml_load : string -> awaited (option parsed_yaml))
           (workflow_id : Z) : awaited section :=
  match fetchWorkflowYaml getWorkflow getContent yaml_load with
  | Throws => Throws
  | Returns workflowYaml => titleHeading workflowYaml workflow_id
  end.

(** [summarizeHistory] of [src/unnamed/part_000] with its lookups: the
    awaited run lookup, the title from [fetchWorkflowYaml], then the report
    of the listed runs.  [Throws] is a rejected promise. *)
Definition summarizeHistory_part_000 (getWorkflowRun : nat -> option Z)
           (getWorkflow : Z -> awaited string)
           (getContent : string -> awaited content_data)
           (yaml_load : string -> awaited (option parsed_yaml))
           (listWorkflowRuns : Z -> paginated)
  : awaited (list section * outcome) :=
  match Part000.resolveWorkflowId getWorkflowRun with
  | Resolved workflow_id _ =>
      match fetchTitle (getWorkflow workflow_id) getContent yaml_load
                       workflow_id with
      | Throws => Throws
      | Returns heading =>
          let (sections, result) :=
            Part000.report (fst (getWorkflowRuns (listWorkflowRuns workflow_id))) in
          Returns (heading :: sections, result)
      end
  | _ => Throws
  end.

(** ** The numeric expressions in double precision *)

(** The binary64 number nearest to an integer. *)
Definition binary64 (z : Z) : SpecFloat.spec_float :=
  SpecFloat.binary_normalize 53 1024 z 0 false.

Definition double_div : SpecFloat.spec_float -> SpecFloat.spec_float
                        -> SpecFloat.spec_float :=
  SpecFloat.SFdiv 53 1024.

Definition double_mul : SpecFloat.spec_float -> SpecFloat.spec_float
                        -> SpecFloat.spec_float :=
  SpecFloat.SFmul 53 1024.

Definition signed_mantissa (s : bool) (m : positive) : Z :=
  if s then Z.neg m else Z.pos m.

(** [Math.floor], [Math.ceil] and [Math.round] of a finite double
    [m * 2^e]; [None] for the non-finite ones. *)
Definition double_floor (x : SpecFloat.spec_float) : option Z :=
  match x with
  | SpecFloat.S754_zero _ => Some 0
  | SpecFloat.S754_finite s m e =>
      Some (if 0 <=? e then signed_mantissa s m * 2 ^ e
            else signed_mantissa s m / 2 ^ (- e))
  | _ => None
  end.

Definition double_ceil (x : SpecFloat.spec_float) : option Z :=
  match x with
  | SpecFloat.S754_zero _ => Some 0
  | SpecFloat.S754_finite s m e =>
      Some (if 0 <=? e then signed_mantissa s m * 2 ^ e
            else - ((- signed_mantissa s m) / 2 ^ (- e)))
  | _ => None
  end.

Definition double_round (x : SpecFloat.spec_float) : option Z :=
  match x with
  | SpecFloat.S754_zero _ => Some 0
  | SpecFloat.S754_finite s m e =>
      Some (if 0 <=? e then signed_mantissa s m * 2 ^ e
            else (2 * signed_mantissa s m + 2 ^ (- e)) / (2 * 2 ^ (- e)))
  | _ => None
  end.

(** [Math.floor((percentile / 100) * sortedDurations.length)] for an
    integral percentile. *)
Definition double_index (percentile : Z) (n : nat) : option Z :=
  double_floor (double_mul (double_div (binary64 percentile) (binary64 100))
                           (binary64 (Z.of_nat n))).

(** [(count / total) * 100]. *)
Definition double_percent (count : Z) (total : nat) : SpecFloat.spec_float :=
  double_mul (double_div (binary64 count) (binary64 (Z.of_nat total)))
             (binary64 100).

(** ** Further notions used to state properties *)

(** The entries the normalizer keeps. *)
Definition retained (r : Response.t) : bool :=
  match Response.conclusion r with
  | ConclusionUndefined => false
  | _ => negb (includes not_finished (Response.status r))
  end.

(** The record built from an entry that is kept. *)
Definition record_of (r : Response.t) : WorkflowRun :=
  mkWorkflowRun (Response.id r) (effective_status r)
                (Response.created_at r) (Response.updated_at r)
                ((Response.updated_at r - Response.created_at r) / 1000).

(** The error of the request that ended the listing, when one threw. *)
Fixpoint fetch_error (source : paginated) : option string :=
  match source with
  | EndOfPages => None
  | Page _ rest => fetch_error rest
  | FetchError error => Some error
  end.



(** * Properties *)

(** ** Sorting *)

Section SortFacts.

Variable compareFn : Z -> Z -> Z.

Lemma sort_insert_perm x l : Permutation (sort_insert compareFn x l) (x :: l).
Proof.
  induction l as [|y l IH]; simpl.
  - apply Permutation_refl.
  - destruct (compareFn x y <=? 0).
    + apply Permutation_refl.
    + eapply perm_trans; [apply perm_skip, IH | apply perm_swap].
Qed.

Lemma sort_perm l : Permutation (sort compareFn l) l.
Proof.
  induction l as [|x l IH]; simpl.
  - constructor.
  - eapply perm_trans; [apply sort_insert_perm | apply perm_skip, IH].
Qed.

Lemma sort_length l : length (sort compareFn l) = length l.
Proof. apply Permutation_length, sort_perm. Qed.

Lemma sort_In x l : In x (sort compareFn l) <-> In x l.
Proof.
  split; apply Permutation_in;
    [apply sort_perm | apply Permutation_sym, sort_perm].
Qed.

(** Any relation that [compareFn] decides is established by the sort. *)
Variable R : Z -> Z -> Prop.
Hypothesis R_before : forall a b, compareFn a b <= 0 -> R a b.
Hypothesis R_after : forall a b, 0 < compareFn a b -> R b a.
Hypothesis R_trans : forall a b c, R a b -> R b c -> R a c.

Lemma sort_insert_sorted x l :
  StronglySorted R l -> StronglySorted R (sort_insert compareFn x l).
Proof.
  induction 1 as [|y l Hs IH Hy]; simpl.
  - repeat constructor.
  - destruct (Z.leb_spec (compareFn x y) 0) as [Hle|Hgt].
    + constructor; [constructor; assumption|].
      constructor; [apply R_before; exact Hle|].
      rewrite Forall_forall in *. intros z Hz.
      eapply R_trans; [apply R_before; exact Hle | apply Hy, Hz].
    + constructor; [exact IH|].
      rewrite Forall_forall in *. intros z Hz.
      apply (Permutation_in _ (sort_insert_perm x l)) in Hz.
      destruct Hz as [<-|Hz]; [apply R_after; exact Hgt | apply Hy, Hz].
Qed.

Lemma sort_sorted l : StronglySorted R (sort compareFn l).
Proof.
  induction l as [|x l IH]; simpl; [constructor | apply sort_insert_sorted, IH].
Qed.

End SortFacts.

Lemma sort_ascending l : StronglySorted Z.le (sort (fun a b => a - b) l).
Proof. apply sort_sorted; intros; lia. Qed.

Lemma sort_descending l : StronglySorted Z.ge (sort (fun a b => b - a) l).
Proof. apply sort_sorted; intros; lia. Qed.

Lemma count_below_perm d l l' :
  Permutation l l' -> count_below d l = count_below d l'.
Proof.
  unfold count_below.
  induction 1 as [|x l l' _ IH|x y l|l1 l2 l3 _ IH1 _ IH2]; simpl.
  - reflexivity.
  - destruct (x <? d); simpl; congruence.
  - destruct (x <? d), (y <? d); reflexivity.
  - congruence.
Qed.

(** ** [findIndex] *)

Lemma findIndex_from_none d l i :
  Forall (fun value => value < d) l ->
  findIndex_from (fun value => geb value d) l i = -1.
Proof.
  intros H. revert i.
  induction H as [|x l Hx _ IH]; intros i; simpl; [reflexivity|].
  unfold geb at 1. destruct (Z.leb_spec d x); [lia | apply IH].
Qed.

Lemma findIndex_from_ascending d l i :
  StronglySorted Z.le l ->
  Exists (fun value => d <= value) l ->
  findIndex_from (fun value => geb value d) l i = i + Z.of_nat (count_below d l).
Proof.
  intros Hs. revert i.
  induction Hs as [|x l Hs IH Hx]; intros i Hex.
  - inversion Hex.
  - simpl. unfold geb at 1, count_below. simpl.
    destruct (Z.leb_spec d x) as [Hdx|Hxd].
    + destruct (Z.ltb_spec x d); [lia|].
      replace (filter (fun value => value <? d) l) with (@nil Z); [simpl; lia|].
      symmetry. clear - Hx Hdx.
      induction Hx as [|y l Hy _ IHl]; simpl; [reflexivity|].
      destruct (Z.ltb_spec y d); [lia | exact IHl].
    + destruct (Z.ltb_spec x d); [|lia].
      inversion Hex as [? ? Hhd|? ? Htl]; subst; [lia|].
      rewrite (IH (i + 1) Htl). unfold count_below. simpl length. lia.
Qed.

Lemma findIndex_from_descending d l i :
  StronglySorted Z.ge l ->
  Exists (fun value => d <= value) l ->
  findIndex_from (fun value => geb value d) l i = i.
Proof.
  intros Hs Hex. destruct Hs as [|x l Hs Hx]; [inversion Hex|].
  simpl. unfold geb. destruct (Z.leb_spec d x) as [|Hxd]; [reflexivity|].
  exfalso. rewrite Forall_forall in Hx. rewrite Exists_exists in Hex.
  destruct Hex as [y [[<-|Hy] Hdy]]; [lia|]. specialize (Hx y Hy). lia.
Qed.

(** ** Arithmetic of the two queries *)

Lemma nat_Q_pos n : (0 < n)%nat -> (0 < nat_Q n)%Q.
Proof.
  intros H. unfold nat_Q.
  change (inject_Z 0 < inject_Z (Z.of_nat n))%Q. rewrite <- Zlt_Qlt. lia.
Qed.


Lemma percentile_index_range (p : Q) n :
  (0 < n)%nat -> (0 <= p)%Q -> (p < 100)%Q ->
  0 <= Math_floor ((p / 100) * nat_Q n) < Z.of_nat n.
Proof.
  intros Hn H0 H100. pose proof (nat_Q_pos n Hn) as Hq.
  unfold Math_floor. split.
  - change 0 with (Qfloor 0). apply Qfloor_resp_le.
    apply Qmult_le_0_compat; [|apply Qlt_le_weak, Hq].
    apply Qle_shift_div_l; [reflexivity|]. rewrite Qmult_0_l. exact H0.
  - rewrite Zlt_Qlt. eapply Qle_lt_trans; [apply Qfloor_le|].
    fold (nat_Q n). rewrite <- (Qmult_1_l (nat_Q n)) at 2.
    apply Qmult_lt_compat_r; [exact Hq|].
    apply Qlt_shift_div_r; [reflexivity|]. rewrite Qmult_1_l. exact H100.
Qed.



(** [Math.ceil((index / n) * 100)] is finite for a non-empty array and is
    the specification's percentage. *)
Lemma ceil_percent index n :
  (0 < n)%nat ->
  Math_ceil (js_times100 (js_div (inject_Z index) (nat_Q n)))
  = Num (inject_Z (spec_percent index n)).
Proof.
  intros Hn. pose proof (nat_Q_pos n Hn) as Hq.
  unfold js_div.
  destruct (Qeq_bool (nat_Q n) 0) eqn:E.
  - apply Qeq_bool_eq in E. rewrite E in Hq. discriminate Hq.
  - simpl. unfold spec_percent. do 2 f_equal.
    rewrite (Qred_correct (Qred (inject_Z index / nat_Q n) * 100)).
    rewrite (Qred_correct (inject_Z index / nat_Q n)). reflexivity.
Qed.

Lemma spec_percent_not_found n : (0 < n)%nat -> spec_percent (-1) n <= 0.
Proof.
  intros Hn. pose proof (nat_Q_pos n Hn) as Hq. unfold spec_percent.
  change 0 with (Qceiling 0). apply Qceiling_resp_le.
  setoid_replace (inject_Z (-1) / nat_Q n * 100)%Q
    with (- (100 / nat_Q n))%Q
    by (field; intros E; rewrite E in Hq; discriminate Hq).
  apply (Qopp_le_compat 0). apply Qle_shift_div_l; [exact Hq|].
  rewrite Qmult_0_l. discriminate.
Qed.

Lemma array_get_in_range {A} (arr : list A) index :
  0 <= index < Z.of_nat (length arr) ->
  exists v, array_get arr index = Some v
            /\ nth_error arr (Z.to_nat index) = Some v.
Proof.
  intros H. unfold array_get. destruct (Z.ltb_spec index 0); [lia|].
  destruct (nth_error arr (Z.to_nat index)) as [v|] eqn:E; [eauto|].
  apply nth_error_None in E. lia.
Qed.


Lemma durations_length g : length (durations_of g) = length (runs g).
Proof. apply length_map. Qed.


Lemma runs_nonempty_length g : runs g <> [] -> (0 < length (runs g))%nat.
Proof. destruct (runs g); [congruence | simpl; lia]. Qed.

Lemma sorted_member compareFn g d :
  Exists (fun run => d <= durationSeconds run) (runs g) ->
  Exists (fun value => d <= value) (sort compareFn (durations_of g)).
Proof.
  rewrite !Exists_exists. intros [run [Hin Hd]].
  exists (durationSeconds run). split; [|exact Hd].
  apply sort_In. unfold durations_of. apply in_map, Hin.
Qed.

Lemma sorted_all_below compareFn g d :
  Forall (fun run => durationSeconds run < d) (runs g) ->
  Forall (fun value => value < d) (sort compareFn (durations_of g)).
Proof.
  rewrite !Forall_forall. intros H value Hin.
  apply sort_In in Hin. unfold durations_of in Hin.
  apply in_map_iff in Hin. destruct Hin as [run [<- Hrun]]. apply H, Hrun.
Qed.

(** ** Percentile group: duration at a percentile *)





(** C2.  The two engines disagree on the group with durations 10 and 20:
    at the 50th percentile [src/index.ts] answers 20 and
    [src/unnamed/part_000] answers 10, and for the threshold 20 the first
    answers 50 and the second 0. *)
Theorem engines_disagree :
  IndexTs.getNthPercentileDuration two_runs 50 = Some 20
  /\ Part000.getNthPercentileDuration two_runs 50 = Some 10
  /\ IndexTs.getPercentileForDuration two_runs 20 = Num 50
  /\ Part000.getPercentileForDuration two_runs 20 = Num 0.
Proof. repeat split. Qed.

(** ** Percentile group: percentile at a duration *)

(** On [src/index.ts] the search index is the count of durations strictly
    below the threshold, and the result, in exact arithmetic, is
    [ceil(count / n * 100)]. *)
Lemma getPercentileForDuration_ascending g d :
  runs g <> [] ->
  Exists (fun run => d <= durationSeconds run) (runs g) ->
  findIndex (fun value => geb value d) (sort (fun a b => a - b) (durations_of g))
  = Z.of_nat (count_below d (durations_of g))
  /\ IndexTs.getPercentileForDuration g d
     = Num (inject_Z (spec_percent (Z.of_nat (count_below d (durations_of g)))
                                   (length (runs g)))).
Proof.
  intros Hne Hex. pose proof (runs_nonempty_length g Hne) as Hn.
  assert (Hidx : findIndex (fun value => geb value d)
                           (sort (fun a b => a - b) (durations_of g))
                 = Z.of_nat (count_below d (durations_of g))).
  { unfold findIndex. rewrite findIndex_from_ascending.
    - rewrite (count_below_perm d _ _ (sort_perm _ (durations_of g))). lia.
    - apply sort_ascending.
    - apply sorted_member, Hex. }
  split; [exact Hidx|].
  unfold IndexTs.getPercentileForDuration. cbv zeta.
  rewrite Hidx, sort_length, durations_length.
  apply ceil_percent, Hn.
Qed.

(** On [src/unnamed/part_000] the array is descending, so the search stops
    at index 0 as soon as any member reaches the threshold. *)
Lemma getPercentileForDuration_descending g d :
  runs g <> [] ->
  Exists (fun run => d <= durationSeconds run) (runs g) ->
  Part000.getPercentileForDuration g d = Num 0.
Proof.
  intros Hne Hex. pose proof (runs_nonempty_length g Hne) as Hn.
  unfold Part000.getPercentileForDuration. cbv zeta.
  unfold findIndex. rewrite findIndex_from_descending;
    [|apply sort_descending | apply sorted_member, Hex].
  rewrite sort_length, durations_length.
  transitivity (Num (inject_Z (spec_percent 0 (length (runs g)))));
    [apply (ceil_percent 0), Hn|].
  unfold spec_percent.
  assert (E : (inject_Z 0 / nat_Q (length (runs g)) * 100 == 0)%Q)
    by (unfold Qdiv; ring).
  rewrite E. reflexivity.
Qed.

(** C3.  One member (20) reaches the threshold 20 and one duration (10) is
    strictly below it, so the claimed value is [ceil(1/2 * 100) = 50];
    [src/index.ts] returns it and [src/unnamed/part_000] returns 0. *)
Theorem getPercentileForDuration_part_000_diverges :
  count_below 20 (durations_of two_runs) = 1%nat
  /\ spec_percent 1 2 = 50
  /\ IndexTs.getPercentileForDuration two_runs 20 = Num 50
  /\ Part000.getPercentileForDuration two_runs 20 = Num 0.
Proof. repeat split. Qed.

(** C10.  When every member duration is strictly below the threshold, the
    search index is [-1] in both files and the result is
    [ceil(-1 / n * 100)], which is at most 0. *)
Theorem getPercentileForDuration_not_found g d :
  runs g <> [] ->
  Forall (fun run => durationSeconds run < d) (runs g) ->
  let n := length (runs g) in
  IndexTs.getPercentileForDuration g d = Num (inject_Z (spec_percent (-1) n))
  /\ Part000.getPercentileForDuration g d = Num (inject_Z (spec_percent (-1) n))
  /\ spec_percent (-1) n <= 0.
Proof.
  intros Hne Hall n. pose proof (runs_nonempty_length g Hne) as Hn.
  unfold IndexTs.getPercentileForDuration, Part000.getPercentileForDuration.
  cbv zeta. unfold findIndex.
  rewrite !findIndex_from_none by (apply sorted_all_below, Hall).
  rewrite !sort_length, durations_length.
  repeat split; try (apply (ceil_percent (-1)), Hn).
  apply spec_percent_not_found, Hn.
Qed.

Lemma getPercentileForDuration_not_found_witness :
  IndexTs.getPercentileForDuration three_runs 31 = Num (-33 # 1)
  /\ Part000.getPercentileForDuration three_runs 31 = Num (-33 # 1).
Proof.
  assert (Hne : runs three_runs <> []) by discriminate.
  assert (Hall : Forall (fun run => durationSeconds run < 31) (runs three_runs))
    by (repeat constructor).
  destruct (getPercentileForDuration_not_found three_runs 31 Hne Hall)
    as (H1 & H2 & _).
  split; [exact H1 | exact H2].
Defined.

(** ** Run Normalizer *)

Lemma floor_div_1000 x : Math_floor (inject_Z x / 1000) = x / 1000.
Proof.
  unfold Math_floor, Qdiv, Qmult, Qinv, inject_Z, Qfloor. simpl.
  rewrite Z.mul_1_r. reflexivity.
Qed.

Lemma normalizeRun_Some r w :
  normalizeRun r = Some w ->
  Response.conclusion r <> ConclusionUndefined
  /\ includes not_finished (Response.status r) = false
  /\ w = mkWorkflowRun (Response.id r) (effective_status r)
                       (Response.created_at r) (Response.updated_at r)
                       ((Response.updated_at r - Response.created_at r) / 1000).
Proof.
  unfold normalizeRun, effective_status. rewrite floor_div_1000.
  destruct (Response.conclusion r) eqn:Ec; [discriminate| |];
    (destruct (includes not_finished (Response.status r)); [discriminate|]);
    intros [= <-]; repeat split; discriminate.
Qed.

Lemma normalizeRun_None r :
  normalizeRun r = None <->
  Response.conclusion r = ConclusionUndefined
  \/ includes not_finished (Response.status r) = true.
Proof.
  unfold normalizeRun.
  destruct (Response.conclusion r);
    destruct (includes not_finished (Response.status r));
    split; intros H; try discriminate; auto;
    destruct H as [H|H]; discriminate.
Qed.

Lemma collectRuns_In source w :
  In w (fst (collectRuns source)) ->
  exists r, In r (entries_of source) /\ normalizeRun r = Some w.
Proof.
  induction source as [|data rest IH|error]; simpl.
  - intros [].
  - destruct (collectRuns rest) as [workflowRuns errors]. simpl in *.
    rewrite in_app_iff, in_flat_map. intros [[r [Hr Hw]]|Hw].
    + exists r. split; [apply in_or_app; left; exact Hr|].
      destruct (normalizeRun r) as [w'|]; [|destruct Hw].
      destruct Hw as [<-|[]]. reflexivity.
    + destruct (IH Hw) as [r [Hr Hn]].
      exists r. split; [apply in_or_app; right; exact Hr | exact Hn].
  - intros [].
Qed.




(** ** Status Grouping Aggregator *)

Lemma Map_get_set_same m key value : Map_get (Map_set m key value) key = Some value.
Proof.
  induction m as [|[k v] m IH]; simpl.
  - rewrite String.eqb_refl. reflexivity.
  - destruct (String.eqb k key) eqn:E; simpl; rewrite E; [reflexivity | exact IH].
Qed.

Lemma Map_get_set_other m key key' value :
  key <> key' -> Map_get (Map_set m key value) key' = Map_get m key'.
Proof.
  intros Hne. induction m as [|[k v] m IH]; simpl.
  - apply String.eqb_neq in Hne. rewrite Hne. reflexivity.
  - destruct (String.eqb_spec k key) as [->|Hk]; simpl.
    + apply String.eqb_neq in Hne. rewrite Hne. reflexivity.
    + rewrite IH. reflexivity.
Qed.

Lemma Map_set_set m key value value' :
  Map_set (Map_set m key value) key value' = Map_set m key value'.
Proof.
  induction m as [|[k v] m IH]; simpl.
  - rewrite String.eqb_refl. reflexivity.
  - destruct (String.eqb k key) eqn:E; simpl; rewrite E; [reflexivity|].
    rewrite IH. reflexivity.
Qed.

Lemma Map_keys_get m key : In key (Map_keys m) <-> Map_get m key <> None.
Proof.
  induction m as [|[k v] m IH]; simpl.
  - split; [intros [] | congruence].
  - destruct (String.eqb_spec k key) as [->|Hk].
    + split; [discriminate | auto].
    + rewrite <- IH. split; [intros [?|?]; [contradiction | assumption] | auto].
Qed.

Lemma Map_keys_set m key value :
  Map_keys (Map_set m key value)
  = if Map_has m key then Map_keys m else Map_keys m ++ [key].
Proof.
  unfold Map_has. induction m as [|[k v] m IH]; simpl.
  - reflexivity.
  - destruct (String.eqb k key) eqn:E; simpl; [reflexivity|].
    rewrite IH. destruct (Map_get m key); reflexivity.
Qed.

Lemma Map_get_Some_In m key group :
  Map_get m key = Some group -> In (key, group) m.
Proof.
  induction m as [|[k v] m IH]; simpl; [discriminate|].
  destruct (String.eqb_spec k key) as [->|Hk].
  - intros [= ->]. left. reflexivity.
  - intros H. right. apply IH, H.
Qed.

Lemma Map_In_get m key group :
  NoDup (Map_keys m) -> In (key, group) m -> Map_get m key = Some group.
Proof.
  induction m as [|[k v] m IH]; simpl; [intros _ []|].
  intros Hnd [[= -> ->]|Hin].
  - rewrite String.eqb_refl. reflexivity.
  - inversion Hnd as [|? ? Hk Hnd']; subst.
    destruct (String.eqb_spec k key) as [->|_].
    + exfalso. apply Hk. apply (in_map fst) in Hin. exact Hin.
    + apply IH; assumption.
Qed.

(** The callback, in one [set]: the group of the run's status, empty when
    new, extended by the run. *)
Lemma groupRun_step_eq m groupRun :
  groupRun_step m groupRun
  = Map_set m (status groupRun)
      (mkWorkflowGroup
         (match Map_get m (status groupRun) with
          | Some group => runs group
          | None => []
          end ++ [groupRun])).
Proof.
  unfold groupRun_step, Map_has.
  destruct (Map_get m (status groupRun)) as [group|] eqn:E; simpl.
  - rewrite E. reflexivity.
  - rewrite Map_get_set_same, Map_set_set. reflexivity.
Qed.

Lemma members_app workflowRuns groupRun key :
  members (workflowRuns ++ [groupRun]) key
  = members workflowRuns key
    ++ (if String.eqb (status groupRun) key then [groupRun] else []).
Proof. unfold members. rewrite filter_app. reflexivity. Qed.

Lemma grouped_by_step m workflowRuns groupRun :
  grouped_by m workflowRuns ->
  grouped_by (groupRun_step m groupRun) (workflowRuns ++ [groupRun]).
Proof.
  intros [Hnd Hget]. rewrite groupRun_step_eq. split.
  - rewrite Map_keys_set. unfold Map_has.
    destruct (Map_get m (status groupRun)) eqn:E; [exact Hnd|].
    apply Permutation_NoDup with (l := status groupRun :: Map_keys m).
    + apply Permutation_cons_append.
    + constructor; [|exact Hnd]. rewrite Map_keys_get. congruence.
  - intros key. rewrite members_app.
    destruct (String.eqb_spec (status groupRun) key) as [<-|Hk].
    + rewrite Map_get_set_same, Hget.
      destruct (members workflowRuns (status groupRun)) as [|x l]; reflexivity.
    + rewrite Map_get_set_other by exact Hk. rewrite app_nil_r. apply Hget.
Qed.

Lemma grouped_by_fold l : forall m workflowRuns,
  grouped_by m workflowRuns ->
  grouped_by (fold_left groupRun_step l m) (workflowRuns ++ l).
Proof.
  induction l as [|groupRun l IH]; intros m workflowRuns H; simpl.
  - rewrite app_nil_r. exact H.
  - replace (workflowRuns ++ groupRun :: l)
      with ((workflowRuns ++ [groupRun]) ++ l)
      by (rewrite <- app_assoc; reflexivity).
    apply IH, grouped_by_step, H.
Qed.

Lemma groupRuns_grouped_by workflowRuns :
  grouped_by (groupRuns workflowRuns) workflowRuns.
Proof.
  apply (grouped_by_fold workflowRuns [] []).
  split; [constructor | reflexivity].
Qed.

Lemma totalRuns_of_sizes m : totalRuns_of m = sizes m.
Proof.
  unfold totalRuns_of, sizes, Map_values.
  assert (H : forall l acc,
             fold_left (fun total group => (total + length (runs group))%nat)
                       (map snd l) acc
             = (acc + list_sum (map (fun entry : string * WorkflowGroup =>
                                       length (runs (snd entry))) l))%nat).
  { induction l as [|e l IH]; intros acc; simpl; [lia|]. rewrite IH. lia. }
  apply H.
Qed.

Lemma sizes_step m groupRun : sizes (groupRun_step m groupRun) = S (sizes m).
Proof.
  rewrite groupRun_step_eq. unfold sizes.
  induction m as [|[k v] m IH]; simpl.
  - reflexivity.
  - destruct (String.eqb k (status groupRun)) eqn:E; simpl.
    + rewrite length_app. simpl. lia.
    + rewrite IH. lia.
Qed.

Lemma sizes_groupRuns workflowRuns :
  sizes (groupRuns workflowRuns) = length workflowRuns.
Proof.
  unfold groupRuns.
  assert (H : forall l m,
             sizes (fold_left groupRun_step l m) = (sizes m + length l)%nat).
  { induction l as [|r l IH]; intros m; simpl; [lia|].
    rewrite IH, sizes_step. lia. }
  apply (H workflowRuns []).
Qed.

(** C6.  Grouping is a partition of the normalized runs: keys are distinct,
    the group of a key holds exactly the runs with that status (so it is
    never empty), every run is in the group of its status and in no other,
    and the group sizes add up to the number of runs. *)
Theorem groupRuns_partition workflowRuns :
  let groupedRuns := groupRuns workflowRuns in
  NoDup (Map_keys groupedRuns)
  /\ (forall key group,
        In (key, group) groupedRuns ->
        runs group = members workflowRuns key /\ runs group <> [])
  /\ (forall run,
        In run workflowRuns ->
        exists group, In (status run, group) groupedRuns /\ In run (runs group))
  /\ (forall run key group,
        In (key, group) groupedRuns -> In run (runs group) -> key = status run)
  /\ totalRuns_of groupedRuns = length workflowRuns.
Proof.
  cbv zeta. destruct (groupRuns_grouped_by workflowRuns) as [Hnd Hget].
  assert (Hgroup : forall key group,
             In (key, group) (groupRuns workflowRuns) ->
             runs group = members workflowRuns key /\ runs group <> []).
  { intros key group Hin. apply (Map_In_get _ _ _ Hnd) in Hin.
    rewrite Hget in Hin.
    destruct (members workflowRuns key) as [|x l]; [discriminate|].
    injection Hin as <-. simpl. split; [reflexivity | discriminate]. }
  split; [exact Hnd|]. split; [exact Hgroup|]. split; [|split].
  - intros run Hin.
    assert (Hm : In run (members workflowRuns (status run)))
      by (apply filter_In; split; [exact Hin | apply String.eqb_refl]).
    specialize (Hget (status run)).
    destruct (members workflowRuns (status run)) as [|x l]; [destruct Hm|].
    eexists. split; [apply Map_get_Some_In, Hget | exact Hm].
  - intros run key group Hin Hrun.
    destruct (Hgroup key group Hin) as [E _]. rewrite E in Hrun.
    apply filter_In in Hrun. destruct Hrun as [_ Hs].
    symmetry. apply String.eqb_eq, Hs.
  - rewrite totalRuns_of_sizes. apply sizes_groupRuns.
Qed.

(** Groups are created in the order in which their status is first met. *)
Lemma Map_has_step m groupRun key :
  Map_has (groupRun_step m groupRun) key
  = String.eqb key (status groupRun) || Map_has m key.
Proof.
  rewrite groupRun_step_eq. unfold Map_has.
  destruct (String.eqb_spec key (status groupRun)) as [->|Hk]; simpl.
  - rewrite Map_get_set_same. reflexivity.
  - rewrite Map_get_set_other by congruence. reflexivity.
Qed.

Lemma filter_filter {A} (f g : A -> bool) l :
  filter f (filter g l) = filter (fun x => g x && f x) l.
Proof.
  induction l as [|x l IH]; simpl; [reflexivity|].
  destruct (g x); simpl; [destruct (f x)|]; rewrite IH; reflexivity.
Qed.

Lemma Map_keys_fold l : forall m,
  Map_keys (fold_left groupRun_step l m)
  = Map_keys m
    ++ filter (fun key => negb (Map_has m key)) (first_seen (map status l)).
Proof.
  induction l as [|groupRun l IH]; intros m; simpl.
  - rewrite app_nil_r. reflexivity.
  - rewrite IH, filter_filter.
    rewrite (groupRun_step_eq m groupRun) at 1. rewrite Map_keys_set.
    destruct (Map_has m (status groupRun)) eqn:E; simpl.
    + f_equal. apply filter_ext. intros key. rewrite Map_has_step.
      apply negb_orb.
    + rewrite <- app_assoc. simpl. do 2 f_equal.
      apply filter_ext. intros key. rewrite Map_has_step.
      apply negb_orb.
Qed.

Lemma groupRuns_keys_first_seen workflowRuns :
  Map_keys (groupRuns workflowRuns) = first_seen (map status workflowRuns).
Proof.
  unfold groupRuns. rewrite Map_keys_fold. simpl.
  induction (first_seen (map status workflowRuns)) as [|k l IH]; simpl;
    [reflexivity | rewrite IH; reflexivity].
Qed.

Lemma first_seen_In key l : In key (first_seen l) -> In key l.
Proof.
  induction l as [|k l IH]; simpl; [auto|].
  intros [->|H]; [left; reflexivity|].
  apply filter_In in H. right. apply IH, H.
Qed.

(** ** Keys of the grouped runs *)

Lemma getWorkflowRuns_fst source :
  fst (getWorkflowRuns source) = groupRuns (fst (collectRuns source)).
Proof. unfold getWorkflowRuns. destruct (collectRuns source). reflexivity. Qed.

Lemma getWorkflowRuns_key source key :
  In key (Map_keys (fst (getWorkflowRuns source))) ->
  exists r, In r (entries_of source)
            /\ Response.conclusion r <> ConclusionUndefined
            /\ includes not_finished (Response.status r) = false
            /\ key = effective_status r.
Proof.
  rewrite getWorkflowRuns_fst, groupRuns_keys_first_seen.
  intros H. apply first_seen_In in H. apply in_map_iff in H.
  destruct H as [w [<- Hw]]. apply collectRuns_In in Hw.
  destruct Hw as [r [Hr Hn]]. apply normalizeRun_Some in Hn.
  destruct Hn as (Hc & Hs & ->). exists r. simpl. auto.
Qed.

(** C7, as amended.  An entry is discarded exactly when its conclusion is
    undefined or its status is one of the five unfinished ones; a retained
    record is keyed by its conclusion whenever that is non-null; and when no
    conclusion value is itself one of the five strings, none of them is a
    key of the grouped runs. *)
Theorem unfinished_statuses_not_keys source :
  (forall r value,
      In r (entries_of source) ->
      Response.conclusion r = Conclusion value ->
      includes not_finished value = false) ->
  (forall r,
      normalizeRun r = None <->
      Response.conclusion r = ConclusionUndefined
      \/ includes not_finished (Response.status r) = true)
  /\ (forall r w value,
        normalizeRun r = Some w ->
        Response.conclusion r = Conclusion value -> status w = value)
  /\ (forall key,
        In key (Map_keys (fst (getWorkflowRuns source))) ->
        includes not_finished key = false).
Proof.
  intros Hconcl. split; [apply normalizeRun_None|]. split.
  - intros r w value Hn Hc. apply normalizeRun_Some in Hn.
    destruct Hn as (_ & _ & ->). simpl. unfold effective_status.
    rewrite Hc. reflexivity.
  - intros key Hkey. apply getWorkflowRuns_key in Hkey.
    destruct Hkey as [r (Hr & _ & Hs & ->)]. unfold effective_status.
    destruct (Response.conclusion r) as [| |value] eqn:Ec;
      [exact Hs | exact Hs | apply (Hconcl r value Hr Ec)].
Qed.

Lemma unfinished_statuses_not_keys_witness :
  In "failure"%string (Map_keys (fst (getWorkflowRuns one_page)))
  /\ includes not_finished "failure" = false.
Proof.
  assert (Hin : In "failure"%string (Map_keys (fst (getWorkflowRuns one_page))))
    by (left; reflexivity).
  split; [exact Hin|]. revert Hin. generalize "failure"%string.
  assert (H : forall r value,
             In r (entries_of one_page) ->
             Response.conclusion r = Conclusion value ->
             includes not_finished value = false).
  { intros r value [<-|[<-|[]]]; simpl; intros [= <-]. reflexivity. }
  destruct (unfinished_statuses_not_keys one_page H) as (_ & _ & Hkeys).
  exact Hkeys.
Defined.

(** C7 as stated fails on a finished entry whose conclusion is the string
    "queued": the filter looks at the raw status, the key is the
    conclusion. *)
Lemma queued_conclusion_is_key :
  Map_keys (fst (getWorkflowRuns (Page [queued_conclusion] EndOfPages)))
  = ["queued"%string]
  /\ includes not_finished "queued" = true.
Proof. split; reflexivity. Qed.

(** ** Workflow Resolver *)

Lemma resolveWorkflowId_nonzero getWorkflowRun fuel lookups workflow_id :
  workflow_id <> 0 ->
  IndexTs.resolveWorkflowId getWorkflowRun fuel lookups workflow_id
  = Resolved workflow_id lookups.
Proof.
  intros H. apply Z.eqb_neq in H.
  destruct fuel; simpl; rewrite H; reflexivity.
Qed.

Lemma resolveWorkflowId_from getWorkflowRun k workflow_id :
  workflow_id <> 0 ->
  getWorkflowRun k = Some workflow_id ->
  (forall j, (j < k)%nat ->
             getWorkflowRun j = None \/ getWorkflowRun j = Some 0) ->
  forall d lookups fuel,
    k = (lookups + d)%nat -> (d < fuel)%nat ->
    IndexTs.resolveWorkflowId getWorkflowRun fuel lookups 0
    = Resolved workflow_id (S k).
Proof.
  intros Hnz Hk Hbefore.
  induction d as [|d IH]; intros lookups fuel E Hfuel;
    (destruct fuel as [|fuel]; [lia|]); simpl.
  - replace lookups with k by lia. rewrite Hk.
    apply resolveWorkflowId_nonzero, Hnz.
  - destruct (Hbefore lookups ltac:(lia)) as [-> | ->];
      apply IH; lia.
Qed.

Lemma resolveWorkflowId_failing fuel : forall lookups,
  IndexTs.resolveWorkflowId always_failing fuel lookups 0
  = StillRetrying (lookups + fuel).
Proof.
  induction fuel as [|fuel IH]; intros lookups; simpl.
  - f_equal. lia.
  - rewrite IH. f_equal. lia.
Qed.

(** The success path: once a lookup answers a non-zero identifier, after
    any number of failed ones, the loop of [src/index.ts] returns that
    identifier and makes no further lookup. *)
Lemma resolver_retries_without_bound getWorkflowRun k workflow_id :
  workflow_id <> 0 ->
  getWorkflowRun k = Some workflow_id ->
  (forall j, (j < k)%nat ->
             getWorkflowRun j = None \/ getWorkflowRun j = Some 0) ->
  (forall fuel, (k < fuel)%nat ->
     IndexTs.resolveWorkflowId getWorkflowRun fuel 0 0
     = Resolved workflow_id (S k))
  /\ (forall fuel,
        IndexTs.resolveWorkflowId always_failing fuel 0 0 = StillRetrying fuel)
  /\ (k = 0%nat -> Part000.resolveWorkflowId getWorkflowRun = Resolved workflow_id 1)
  /\ Part000.resolveWorkflowId always_failing = Rejected 1.
Proof.
  intros Hnz Hk Hbefore. split; [|split; [|split]].
  - intros fuel Hfuel.
    apply (resolveWorkflowId_from getWorkflowRun k workflow_id Hnz Hk Hbefore k);
      lia.
  - intros fuel. apply (resolveWorkflowId_failing fuel 0).
  - intros ->. unfold Part000.resolveWorkflowId. rewrite Hk. reflexivity.
  - reflexivity.
Qed.

Lemma resolver_retries_without_bound_witness :
  IndexTs.resolveWorkflowId third_time_lucky 3 0 0 = Resolved 7 3.
Proof.
  assert (Hnz : 7 <> 0) by discriminate.
  assert (Hk : third_time_lucky 2 = Some 7) by reflexivity.
  assert (Hbefore : forall j, (j < 2)%nat ->
            third_time_lucky j = None \/ third_time_lucky j = Some 0).
  { intros j Hj. left. unfold third_time_lucky.
    destruct (Nat.ltb_spec j 2); [reflexivity | lia]. }
  destruct (resolver_retries_without_bound third_time_lucky 2 7 Hnz Hk Hbefore)
    as (H & _).
  apply H. lia.
Defined.

(** C4.  Every lookup throws: however long the loop of [src/index.ts] is
    observed it is still retrying, so it never returns and never raises;
    the resolver of [src/unnamed/part_000] rejects after its one lookup. *)
Theorem resolver_never_gives_up :
  (forall fuel,
      IndexTs.resolveWorkflowId always_failing fuel 0 0 = StillRetrying fuel)
  /\ ~ (exists fuel,
          terminated (IndexTs.resolveWorkflowId always_failing fuel 0 0) = true)
  /\ Part000.resolveWorkflowId always_failing = Rejected 1.
Proof.
  split; [|split].
  - intros fuel. apply (resolveWorkflowId_failing fuel 0).
  - intros [fuel H]. rewrite resolveWorkflowId_failing in H. discriminate H.
  - reflexivity.
Qed.

(** ** Report Assembler *)

(** [Math.round(x / y * 100)] for a positive [y]. *)
Lemma round_percent x y :
  (0 < y)%nat ->
  Math_round (js_times100 (js_div (nat_Q x) (nat_Q y)))
  = Num (inject_Z (Qfloor (nat_Q x / nat_Q y * 100 + (1 # 2)))).
Proof.
  intros Hy. pose proof (nat_Q_pos y Hy) as Hq. unfold js_div.
  destruct (Qeq_bool (nat_Q y) 0) eqn:E.
  - apply Qeq_bool_eq in E. rewrite E in Hq. discriminate Hq.
  - unfold js_times100, Math_round. do 2 f_equal. apply Qfloor_comp.
    rewrite !Qred_correct. reflexivity.
Qed.

(** The assembler of [src/unnamed/part_000] always reaches
    [core.summary.write()]. *)
Lemma report_guarded_written groupedWorkflowRuns :
  snd (Part000.report groupedWorkflowRuns) = Written.
Proof. reflexivity. Qed.

Ltac case_guards :=
  repeat match goal with
         | |- context [if (0 <? ?n)%nat then _ else _] =>
             destruct (Nat.ltb_spec 0 n)
         end.

Ltac in_cases H :=
  simpl in H; repeat destruct H as [H|H];
  try discriminate H; try (exfalso; exact H).

(** It emits the success-rate heading exactly when both groups exist and
    hold at least one run between them, with the literal counts and, in
    exact arithmetic, [round(successes / (successes + failures) * 100)]. *)
Lemma report_guarded_success_rate groupedWorkflowRuns rate successes outOf :
  In (addHeading (SuccessRate rate successes outOf))
     (fst (Part000.report groupedWorkflowRuns))
  <-> exists success failure,
      Map_get groupedWorkflowRuns "success" = Some success
      /\ Map_get groupedWorkflowRuns "failure" = Some failure
      /\ (0 < length (runs success) + length (runs failure))%nat
      /\ successes = length (runs success)
      /\ outOf = (length (runs success) + length (runs failure))%nat
      /\ rate = Num (inject_Z (Qfloor (nat_Q successes / nat_Q outOf * 100
                                       + (1 # 2)))).
Proof.
  unfold Part000.report. cbv zeta. simpl fst.
  destruct (Map_get groupedWorkflowRuns "success") as [success|];
    destruct (Map_get groupedWorkflowRuns "failure") as [failure|];
    case_guards;
    (split;
     [ intros Hin; in_cases Hin
     | intros (s & f & Hs & Hf & Hpos & -> & -> & ->);
       try discriminate Hs; try discriminate Hf;
       injection Hs as <-; injection Hf as <-; try lia ]).
  all: try (injection Hin as <- <- <-; exists success, failure;
            repeat split; try assumption; apply round_percent; assumption).
  all: right; left; rewrite round_percent by assumption; reflexivity.
Qed.

(** The assembler of [src/index.ts] reads [success.runs] and [failure.runs]
    without a guard: it reaches [write()] exactly when both groups exist. *)
Lemma report_unguarded_outcome groupedWorkflowRuns :
  snd (IndexTs.report groupedWorkflowRuns) = Written
  <-> Map_has groupedWorkflowRuns "success" = true
      /\ Map_has groupedWorkflowRuns "failure" = true.
Proof.
  unfold IndexTs.report, Map_has. cbv zeta.
  destruct (Map_get groupedWorkflowRuns "success");
    destruct (Map_get groupedWorkflowRuns "failure"); simpl;
    split; try tauto; try discriminate; intros [? ?]; discriminate.
Qed.

(** C5.  A history with successful runs only: [src/unnamed/part_000] omits
    the success-rate heading and the failure section, [src/index.ts]
    throws a [TypeError] after the first heading and writes nothing. *)
Theorem report_unguarded_throws :
  IndexTs.summarizeHistory (fun _ => Some 7) 1 (fun _ => all_green)
  = Some ([addHeading (WorkflowRunHistory 1)], TypeError)
  /\ Part000.summarizeHistory (fun _ => Some 7) None (fun _ => all_green)
     = Some ([addHeading (HistoryOfWorkflow 7);
              addHeading (TotalRuns 1);
              addHeading (SuccessfulRuns 1);
              addPercentileTable (Some 10) (Some 10) (Some 10);
              addHeading RunStatusBreakdown;
              addBreakdownTable [("success"%string, Num 100)]],
             Written).
Proof. split; reflexivity. Qed.



(** C9.  One successful and two failed runs: the claimed rows are
    [ceil(1/3 * 100) = 34] and [ceil(2/3 * 100) = 67];
    [src/unnamed/part_000] emits them, [src/index.ts] emits the quotients
    [100/3] and [200/3] as they are. *)
Theorem breakdown_unrounded :
  spec_percent 1 3 = 34 /\ spec_percent 2 3 = 67
  /\ IndexTs.summarizeHistory (fun _ => Some 7) 1 (fun _ => one_green_two_red)
     = Some ([addHeading (WorkflowRunHistory 3);
              addHeading (SuccessRate (Num 33) 1 3);
              addHeading (SuccessfulRuns 1);
              addPercentileTable (Some 10) (Some 10) (Some 10);
              addHeading (FailingRuns 2);
              addPercentileTable (Some 30) (Some 30) (Some 30);
              addHeading RunStatusBreakdown;
              addBreakdownTable [("success"%string, Num (100 # 3));
                                 ("failure"%string, Num (200 # 3))]],
             Written)
  /\ In (addBreakdownTable [("success"%string, Num 34);
                            ("failure"%string, Num 67)])
        (fst (Part000.report (fst (getWorkflowRuns one_green_two_red)))).
Proof.
  split; [reflexivity|]. split; [reflexivity|]. split; [reflexivity|].
  simpl. tauto.
Qed.

(** * Further properties of the code *)

(** ** Order of the answers of [getNthPercentileDuration] *)

Lemma sorted_nth_error (R : Z -> Z -> Prop) l :
  StronglySorted R l ->
  forall i j a b,
    (i < j)%nat -> nth_error l i = Some a -> nth_error l j = Some b -> R a b.
Proof.
  induction 1 as [|x l Hs IH Hx]; intros i j a b Hij Hi Hj.
  - destruct i; discriminate Hi.
  - destruct j as [|j]; [lia|]. simpl in Hj. destruct i as [|i]; simpl in Hi.
    + injection Hi as <-. rewrite Forall_forall in Hx.
      apply Hx. eapply nth_error_In, Hj.
    + apply (IH i j); [lia | assumption | assumption].
Qed.

Lemma percentile_index_le (p q : Q) n :
  (p <= q)%Q ->
  Math_floor ((p / 100) * nat_Q n) <= Math_floor ((q / 100) * nat_Q n).
Proof.
  intros Hpq. unfold Math_floor. apply Qfloor_resp_le.
  apply Qmult_le_compat_r.
  - unfold Qdiv. apply Qmult_le_compat_r; [exact Hpq | discriminate].
  - unfold nat_Q. change 0%Q with (inject_Z 0). rewrite <- Zle_Qle. lia.
Qed.

(** The two answers at percentiles [p <= q] below 100 are related the way
    the comparator orders the array. *)
Lemma nth_percentiles_ordered compareFn (R : Z -> Z -> Prop) g (p q : Q) :
  (forall l, StronglySorted R (sort compareFn l)) ->
  (forall a, R a a) ->
  runs g <> [] -> (0 <= p)%Q -> (p <= q)%Q -> (q < 100)%Q ->
  let sortedDurations := sort compareFn (durations_of g) in
  let n := length sortedDurations in
  exists v w,
    array_get sortedDurations (Math_floor ((p / 100) * nat_Q n)) = Some v
    /\ array_get sortedDurations (Math_floor ((q / 100) * nat_Q n)) = Some w
    /\ R v w.
Proof.
  intros Hsorted Hrefl Hne H0 Hpq H100. cbv zeta.
  pose proof (runs_nonempty_length g Hne) as Hn.
  rewrite sort_length, durations_length.
  assert (Hlen : length (sort compareFn (durations_of g)) = length (runs g))
    by (rewrite sort_length; apply durations_length).
  assert (Hp : (p < 100)%Q) by (eapply Qle_lt_trans; eassumption).
  assert (H0q : (0 <= q)%Q) by (eapply Qle_trans; eassumption).
  pose proof (percentile_index_range p _ Hn H0 Hp) as Rp.
  pose proof (percentile_index_range q _ Hn H0q H100) as Rq.
  pose proof (percentile_index_le p q (length (runs g)) Hpq) as Hle.
  destruct (array_get_in_range (sort compareFn (durations_of g))
              (Math_floor ((p / 100) * nat_Q (length (runs g)))))
    as [v [Hv Hv']]; [rewrite Hlen; exact Rp|].
  destruct (array_get_in_range (sort compareFn (durations_of g))
              (Math_floor ((q / 100) * nat_Q (length (runs g)))))
    as [w [Hw Hw']]; [rewrite Hlen; exact Rq|].
  exists v, w. split; [exact Hv|]. split; [exact Hw|].
  destruct (Z.eq_dec (Math_floor ((p / 100) * nat_Q (length (runs g))))
                     (Math_floor ((q / 100) * nat_Q (length (runs g)))))
    as [E|NE].
  - rewrite E in Hv'. rewrite Hv' in Hw'. injection Hw' as <-. apply Hrefl.
  - eapply (sorted_nth_error R _ (Hsorted _)); [|exact Hv'|exact Hw']; lia.
Qed.

(** X1.  In [src/index.ts] a higher percentile never gives a shorter
    duration: for [0 <= p <= q < 100] on a non-empty group both answers are
    defined and the one at [p] is at most the one at [q]. *)
Theorem getNthPercentileDuration_monotone g (p q : Q) :
  runs g <> [] -> (0 <= p)%Q -> (p <= q)%Q -> (q < 100)%Q ->
  exists v w,
    IndexTs.getNthPercentileDuration g p = Some v
    /\ IndexTs.getNthPercentileDuration g q = Some w
    /\ v <= w.
Proof.
  intros Hne H0 Hpq H100.
  apply (nth_percentiles_ordered (fun a b => a - b) Z.le g p q);
    try assumption; [apply sort_ascending | intros; lia].
Qed.

Lemma getNthPercentileDuration_monotone_witness :
  exists v w,
    IndexTs.getNthPercentileDuration three_runs 50 = Some v
    /\ IndexTs.getNthPercentileDuration three_runs 99 = Some w
    /\ v <= w.
Proof.
  apply (getNthPercentileDuration_monotone three_runs 50 99);
    first [discriminate | reflexivity].
Defined.

(** X2.  In [src/unnamed/part_000] the order is reversed: for
    [0 <= p <= q < 100] on a non-empty group the answer at [p] is at least
    the one at [q], so the "99th percentile" row is never above the "50th"
    one. *)
Theorem getNthPercentileDuration_part_000_antitone g (p q : Q) :
  runs g <> [] -> (0 <= p)%Q -> (p <= q)%Q -> (q < 100)%Q ->
  exists v w,
    Part000.getNthPercentileDuration g p = Some v
    /\ Part000.getNthPercentileDuration g q = Some w
    /\ w <= v.
Proof.
  intros Hne H0 Hpq H100.
  destruct (nth_percentiles_ordered (fun a b => b - a) Z.ge g p q)
    as (v & w & Hv & Hw & Hvw);
    try assumption; [apply sort_descending | intros; lia |].
  exists v, w. repeat split; [exact Hv | exact Hw | lia].
Qed.

Lemma getNthPercentileDuration_part_000_antitone_witness :
  exists v w,
    Part000.getNthPercentileDuration three_runs 50 = Some v
    /\ Part000.getNthPercentileDuration three_runs 99 = Some w
    /\ w <= v.
Proof.
  apply (getNthPercentileDuration_part_000_antitone three_runs 50 99);
    first [discriminate | reflexivity].
Defined.

(** ** What [getNthPercentileDuration] can return *)

Lemma array_get_In {A} (arr : list A) index v :
  array_get arr index = Some v -> In v arr.
Proof.
  unfold array_get. destruct (index <? 0); [discriminate|].
  apply nth_error_In.
Qed.

Lemma durations_member g v :
  In v (durations_of g) ->
  exists run, In run (runs g) /\ durationSeconds run = v.
Proof.
  unfold durations_of. rewrite in_map_iff.
  intros [run [E Hin]]. exists run. auto.
Qed.

(** X3.  Whatever the percentile, also outside [[0,100]], an answer of
    [getNthPercentileDuration] in either file is the duration of a member
    run. *)
Theorem getNthPercentileDuration_member g (p : Q) v :
  IndexTs.getNthPercentileDuration g p = Some v
  \/ Part000.getNthPercentileDuration g p = Some v ->
  exists run, In run (runs g) /\ durationSeconds run = v.
Proof.
  unfold IndexTs.getNthPercentileDuration, Part000.getNthPercentileDuration.
  cbv zeta. intros [H|H]; apply array_get_In, sort_In in H;
    apply durations_member, H.
Qed.

Lemma getNthPercentileDuration_member_witness :
  exists run, In run (runs three_runs) /\ durationSeconds run = 20.
Proof.
  apply (getNthPercentileDuration_member three_runs 50 20).
  left. reflexivity.
Defined.

Lemma array_get_nil {A} index : array_get (@nil A) index = None.
Proof.
  unfold array_get. destruct (index <? 0); [reflexivity|].
  destruct (Z.to_nat index); reflexivity.
Qed.

(** X4.  On a group without runs [getNthPercentileDuration] is [undefined]
    for every percentile and [getPercentileForDuration] is [-Infinity] for
    every threshold, in both files. *)
Theorem empty_group_queries g (p : Q) d :
  runs g = [] ->
  IndexTs.getNthPercentileDuration g p = None
  /\ Part000.getNthPercentileDuration g p = None
  /\ IndexTs.getPercentileForDuration g d = NegInfinity
  /\ Part000.getPercentileForDuration g d = NegInfinity.
Proof.
  intros E.
  unfold IndexTs.getNthPercentileDuration, Part000.getNthPercentileDuration,
    IndexTs.getPercentileForDuration, Part000.getPercentileForDuration,
    durations_of.
  rewrite E. cbv zeta. change (sort _ (map durationSeconds [])) with (@nil Z).
  repeat split; apply array_get_nil.
Qed.

Lemma empty_group_queries_witness :
  IndexTs.getNthPercentileDuration (group_of_durations []) 50 = None
  /\ Part000.getNthPercentileDuration (group_of_durations []) 50 = None
  /\ IndexTs.getPercentileForDuration (group_of_durations []) 5 = NegInfinity
  /\ Part000.getPercentileForDuration (group_of_durations []) 5 = NegInfinity.
Proof.
  apply (empty_group_queries (group_of_durations []) 50 5). reflexivity.
Defined.

(** ** The two sort orders *)







(** ** Range and order of the answers of [getPercentileForDuration] *)

Lemma count_below_le_length d l : (count_below d l <= length l)%nat.
Proof. apply filter_length_le. Qed.

Lemma count_below_lt_length d l :
  Exists (fun value => d <= value) l -> (count_below d l < length l)%nat.
Proof.
  unfold count_below. induction 1 as [x l Hx|x l _ IH]; simpl.
  - destruct (Z.ltb_spec x d); [lia|].
    pose proof (count_below_le_length d l). unfold count_below in *. lia.
  - destruct (x <? d); simpl; lia.
Qed.

Lemma count_below_mono d d' l :
  d <= d' -> (count_below d l <= count_below d' l)%nat.
Proof.
  intros Hd. unfold count_below. induction l as [|x l IH]; simpl; [lia|].
  destruct (Z.ltb_spec x d), (Z.ltb_spec x d'); simpl; lia.
Qed.

Lemma spec_percent_mono k k' n :
  (0 < n)%nat -> k <= k' -> spec_percent k n <= spec_percent k' n.
Proof.
  intros Hn Hk. pose proof (nat_Q_pos n Hn) as Hq.
  unfold spec_percent. apply Qceiling_resp_le.
  apply Qmult_le_compat_r; [|discriminate].
  unfold Qdiv. apply Qmult_le_compat_r.
  - rewrite <- Zle_Qle. exact Hk.
  - apply Qlt_le_weak, Qinv_lt_0_compat, Hq.
Qed.

Lemma spec_percent_0 n : spec_percent 0 n = 0.
Proof.
  unfold spec_percent.
  assert (E : (inject_Z 0 / nat_Q n * 100 == 0)%Q) by (unfold Qdiv; ring).
  rewrite E. reflexivity.
Qed.

Lemma spec_percent_all n : (0 < n)%nat -> spec_percent (Z.of_nat n) n = 100.
Proof.
  intros Hn. pose proof (nat_Q_pos n Hn) as Hq. unfold spec_percent.
  assert (E : (inject_Z (Z.of_nat n) / nat_Q n * 100 == inject_Z 100)%Q).
  { unfold nat_Q in *. field. intros E. rewrite E in Hq. discriminate Hq. }
  rewrite E. apply Qceiling_Z.
Qed.

Lemma exists_weaken d d' g :
  d <= d' ->
  Exists (fun run => d' <= durationSeconds run) (runs g) ->
  Exists (fun run => d <= durationSeconds run) (runs g).
Proof.
  intros Hd. apply Exists_impl. intros run. lia.
Qed.

(** X6.  In [src/index.ts], for a non-empty group and thresholds
    [d <= d'] that some member reaches, both answers are integers between
    0 and 100 and the answer for [d] is at most the answer for [d']. *)
Theorem getPercentileForDuration_monotone g d d' :
  runs g <> [] -> d <= d' ->
  Exists (fun run => d' <= durationSeconds run) (runs g) ->
  exists z z',
    IndexTs.getPercentileForDuration g d = Num (inject_Z z)
    /\ IndexTs.getPercentileForDuration g d' = Num (inject_Z z')
    /\ 0 <= z /\ z <= z' /\ z' <= 100.
Proof.
  intros Hne Hd Hex. pose proof (runs_nonempty_length g Hne) as Hn.
  destruct (getPercentileForDuration_ascending g d Hne
              (exists_weaken d d' g Hd Hex)) as [_ E].
  destruct (getPercentileForDuration_ascending g d' Hne Hex) as [_ E'].
  eexists. eexists. split; [exact E|]. split; [exact E'|].
  pose proof (count_below_mono d d' (durations_of g) Hd) as Hmono.
  pose proof (count_below_le_length d' (durations_of g)) as Hlen.
  rewrite durations_length in Hlen.
  split; [|split].
  - rewrite <- (spec_percent_0 (length (runs g))).
    apply spec_percent_mono; [exact Hn | lia].
  - apply spec_percent_mono; [exact Hn | lia].
  - rewrite <- (spec_percent_all (length (runs g)) Hn).
    apply spec_percent_mono; [exact Hn | lia].
Qed.

Lemma getPercentileForDuration_monotone_witness :
  exists z z',
    IndexTs.getPercentileForDuration three_runs 15 = Num (inject_Z z)
    /\ IndexTs.getPercentileForDuration three_runs 25 = Num (inject_Z z')
    /\ 0 <= z /\ z <= z' /\ z' <= 100.
Proof.
  apply (getPercentileForDuration_monotone three_runs 15 25).
  - discriminate.
  - discriminate.
  - apply Exists_cons_hd. discriminate.
Defined.

Lemma threshold_cases g d :
  Forall (fun run => durationSeconds run < d) (runs g)
  \/ Exists (fun run => d <= durationSeconds run) (runs g).
Proof.
  induction (runs g) as [|run l IH].
  - left. constructor.
  - destruct (Z.lt_ge_cases (durationSeconds run) d) as [Hlt|Hge].
    + destruct IH as [IH|IH]; [left; constructor; assumption|].
      right. apply Exists_cons_tl, IH.
    + right. apply Exists_cons_hd, Hge.
Qed.

(** X7.  In [src/unnamed/part_000] [getPercentileForDuration] never
    answers a positive percentile: on a non-empty group it is 0 as soon as
    one member reaches the threshold and [ceil(-100 / n)] otherwise. *)
Theorem getPercentileForDuration_part_000_never_positive g d :
  runs g <> [] ->
  exists z,
    Part000.getPercentileForDuration g d = Num (inject_Z z)
    /\ z <= 0
    /\ (Exists (fun run => d <= durationSeconds run) (runs g) -> z = 0).
Proof.
  intros Hne. pose proof (runs_nonempty_length g Hne) as Hn.
  destruct (threshold_cases g d) as [Hall|Hex].
  - exists (spec_percent (-1) (length (runs g))). split; [|split].
    + unfold Part000.getPercentileForDuration. cbv zeta. unfold findIndex.
      rewrite findIndex_from_none by (apply sorted_all_below, Hall).
      rewrite sort_length, durations_length.
      apply (ceil_percent (-1)), Hn.
    + apply spec_percent_not_found, Hn.
    + intros Hex. exfalso. rewrite Forall_forall in Hall.
      rewrite Exists_exists in Hex. destruct Hex as [run [Hin Hd]].
      specialize (Hall run Hin). lia.
  - exists 0. split; [|split; [lia | reflexivity]].
    apply getPercentileForDuration_descending; assumption.
Qed.

Lemma getPercentileForDuration_part_000_never_positive_witness :
  exists z,
    Part000.getPercentileForDuration three_runs 25 = Num (inject_Z z)
    /\ z <= 0.
Proof.
  assert (Hne : runs three_runs <> []) by discriminate.
  destruct (getPercentileForDuration_part_000_never_positive three_runs 25 Hne)
    as [z [E [Hz _]]].
  exists z. split; [exact E | exact Hz].
Defined.

(** ** The listing loop *)

Lemma normalizeRun_retained r :
  normalizeRun r = if retained r then Some (record_of r) else None.
Proof.
  unfold normalizeRun, retained, record_of, effective_status.
  rewrite floor_div_1000.
  destruct (Response.conclusion r);
    destruct (includes not_finished (Response.status r)); reflexivity.
Qed.

Lemma normalize_page data :
  flat_map (fun r => match normalizeRun r with
                     | Some workflowRun => [workflowRun]
                     | None => []
                     end) data
  = map record_of (filter retained data).
Proof.
  induction data as [|r data IH]; simpl; [reflexivity|].
  rewrite normalizeRun_retained, IH. destruct (retained r); reflexivity.
Qed.

(** X8.  The listing loop keeps, in arrival order, one record per entry
    whose conclusion is defined and whose status is not an unfinished one,
    over all pages yielded before the listing ended; it logs one error when
    a request threw and none otherwise. *)
Theorem collectRuns_partial_data source :
  fst (collectRuns source) = map record_of (filter retained (entries_of source))
  /\ snd (collectRuns source)
     = match fetch_error source with
       | Some error => [error]
       | None => []
       end.
Proof.
  induction source as [|data rest [IH1 IH2]|error]; simpl.
  - split; reflexivity.
  - destruct (collectRuns rest) as [workflowRuns errors]. simpl in *.
    rewrite normalize_page, IH1, filter_app, map_app. split; [reflexivity | exact IH2].
  - split; reflexivity.
Qed.

Lemma collectRuns_fst source :
  fst (collectRuns source) = map record_of (filter retained (entries_of source)).
Proof.
  induction source as [|data rest IH|error]; simpl; try reflexivity.
  destruct (collectRuns rest) as [workflowRuns errors]. simpl in *.
  rewrite normalize_page, IH, filter_app, map_app. reflexivity.
Qed.

Lemma totalRuns_counts_retained_aux source :
  totalRuns_of (fst (getWorkflowRuns source))
  = length (filter retained (entries_of source)).
Proof.
  rewrite getWorkflowRuns_fst, totalRuns_of_sizes, sizes_groupRuns.
  rewrite collectRuns_fst. apply length_map.
Qed.

(** X9.  The run count that heads the report is the number of entries the
    normalizer kept. *)
Theorem totalRuns_counts_retained source :
  totalRuns_of (fst (getWorkflowRuns source))
  = length (filter retained (entries_of source)).
Proof.
  rewrite getWorkflowRuns_fst, totalRuns_of_sizes, sizes_groupRuns.
  rewrite collectRuns_fst. apply length_map.
Qed.

(** X10.  The keys of the grouped runs are the effective statuses of the
    kept entries, each once, in the order in which they are first met. *)
Theorem getWorkflowRuns_keys_in_arrival_order source :
  Map_keys (fst (getWorkflowRuns source))
  = first_seen (map effective_status (filter retained (entries_of source))).
Proof.
  rewrite getWorkflowRuns_fst, groupRuns_keys_first_seen, collectRuns_fst.
  rewrite map_map. reflexivity.
Qed.

(** ** Grouping and arrival order *)

Lemma members_perm l l' key :
  Permutation l l' -> Permutation (members l key) (members l' key).
Proof.
  unfold members.
  induction 1 as [|x l l' _ IH|x y l|l1 l2 l3 _ IH1 _ IH2]; simpl.
  - constructor.
  - destruct (String.eqb (status x) key); [constructor|]; exact IH.
  - destruct (String.eqb (status x) key), (String.eqb (status y) key);
      try apply Permutation_refl. apply perm_swap.
  - eapply perm_trans; eassumption.
Qed.

Lemma groupRuns_get workflowRuns key :
  Map_get (groupRuns workflowRuns) key
  = match members workflowRuns key with
    | [] => None
    | group => Some (mkWorkflowGroup group)
    end.
Proof. apply (groupRuns_grouped_by workflowRuns). Qed.

(** X11.  Grouping does not depend on the order of arrival: when the same
    runs arrive in another order, a status has a group in one result
    exactly when it has one in the other, and the two groups hold the same
    runs. *)
Theorem groupRuns_order_independent workflowRuns workflowRuns' key :
  Permutation workflowRuns workflowRuns' ->
  match Map_get (groupRuns workflowRuns) key,
        Map_get (groupRuns workflowRuns') key with
  | Some group, Some group' => Permutation (runs group) (runs group')
  | None, None => True
  | _, _ => False
  end.
Proof.
  intros Hp. rewrite !groupRuns_get.
  pose proof (members_perm _ _ key Hp) as Hm.
  destruct (members workflowRuns key) as [|x l];
    destruct (members workflowRuns' key) as [|x' l']; simpl.
  - exact I.
  - apply Permutation_nil in Hm. discriminate Hm.
  - apply Permutation_sym, Permutation_nil in Hm. discriminate Hm.
  - exact Hm.
Qed.

Lemma groupRuns_order_independent_witness :
  match Map_get (groupRuns [run_lasting 10; run_lasting 20]) "success",
        Map_get (groupRuns [run_lasting 20; run_lasting 10]) "success" with
  | Some group, Some group' => Permutation (runs group) (runs group')
  | None, None => True
  | _, _ => False
  end.
Proof.
  apply (groupRuns_order_independent [run_lasting 10; run_lasting 20]
                                     [run_lasting 20; run_lasting 10]).
  apply perm_swap.
Defined.

(** ** The guarded report of [src/unnamed/part_000] *)

Lemma length_pos_nonempty g : (0 < length (runs g))%nat -> runs g <> [].
Proof. destruct (runs g); simpl; [lia | discriminate]. Qed.

Lemma part_000_table g :
  (0 < length (runs g))%nat ->
  exists p99 p90 p50,
    Part000.getNthPercentileDuration g 99 = Some p99
    /\ Part000.getNthPercentileDuration g 90 = Some p90
    /\ Part000.getNthPercentileDuration g 50 = Some p50
    /\ p99 <= p90 /\ p90 <= p50.
Proof.
  intros Hn. apply length_pos_nonempty in Hn.
  destruct (nth_percentiles_ordered (fun a b => b - a) Z.ge g 50 90)
    as (p50 & p90 & H50 & H90 & Hle1);
    try assumption;
    [apply sort_descending | intros; lia | discriminate | discriminate
     | reflexivity |].
  destruct (nth_percentiles_ordered (fun a b => b - a) Z.ge g 90 99)
    as (p90' & p99 & H90' & H99 & Hle2);
    try assumption;
    [apply sort_descending | intros; lia | discriminate | discriminate
     | reflexivity |].
  cbv zeta in *. rewrite H90 in H90'. injection H90' as <-.
  exists p99, p90, p50. repeat split; try assumption; lia.
Qed.

(** X12.  Every percentile table of the guarded report has three defined
    cells, and they are ordered 99th <= 90th <= 50th: the guard keeps
    [undefined] out, the descending sort inverts the order. *)
Theorem report_guarded_tables groupedWorkflowRuns a b c :
  In (addPercentileTable a b c) (fst (Part000.report groupedWorkflowRuns)) ->
  exists p99 p90 p50,
    a = Some p99 /\ b = Some p90 /\ c = Some p50
    /\ p99 <= p90 /\ p90 <= p50.
Proof.
  unfold Part000.report. cbv zeta. simpl fst.
  destruct (Map_get groupedWorkflowRuns "success") as [success|];
    destruct (Map_get groupedWorkflowRuns "failure") as [failure|];
    case_guards; intros Hin; in_cases Hin.
  all: injection Hin as <- <- <-.
  all: match goal with
       | |- context [Part000.getNthPercentileDuration ?g _] =>
           destruct (part_000_table g) as (p99 & p90 & p50 & -> & -> & -> & ? & ?);
           [assumption|]
       end.
  all: exists p99, p90, p50; auto.
Qed.

Lemma report_guarded_tables_witness :
  exists p99 p90 p50,
    Some 20 = Some p99 /\ Some 20 = Some p90 /\ Some 20 = Some p50
    /\ p99 <= p90 /\ p90 <= p50.
Proof.
  apply (report_guarded_tables (fst (getWorkflowRuns one_green_two_red))).
  simpl. tauto.
Defined.

Lemma Map_get_size m key group :
  Map_get m key = Some group -> (length (runs group) <= totalRuns_of m)%nat.
Proof.
  rewrite totalRuns_of_sizes. unfold sizes.
  induction m as [|[k v] m IH]; simpl; [discriminate|].
  destruct (String.eqb k key).
  - intros [= ->]. lia.
  - intros H. specialize (IH H). lia.
Qed.

(** X13.  When the grouped runs hold no run at all, the guarded report is
    the total heading alone and is written. *)
Theorem report_guarded_empty groupedWorkflowRuns :
  totalRuns_of groupedWorkflowRuns = 0%nat ->
  Part000.report groupedWorkflowRuns = ([addHeading (TotalRuns 0)], Written).
Proof.
  intros E. unfold Part000.report. cbv zeta. rewrite E.
  pose proof (Map_get_size groupedWorkflowRuns "success") as Hs.
  pose proof (Map_get_size groupedWorkflowRuns "failure") as Hf.
  destruct (Map_get groupedWorkflowRuns "success") as [success|];
    destruct (Map_get groupedWorkflowRuns "failure") as [failure|];
    try specialize (Hs _ eq_refl); try specialize (Hf _ eq_refl);
    case_guards; try lia; reflexivity.
Qed.

Lemma report_guarded_empty_witness :
  Part000.report (fst (getWorkflowRuns (FetchError "Bad credentials")))
  = ([addHeading (TotalRuns 0)], Written).
Proof.
  apply (report_guarded_empty (fst (getWorkflowRuns (FetchError "Bad credentials")))).
  reflexivity.
Defined.

Lemma round_bounds successes outOf :
  (0 < outOf)%nat -> (successes <= outOf)%nat ->
  0 <= Qfloor (nat_Q successes / nat_Q outOf * 100 + (1 # 2)) <= 100.
Proof.
  intros Hpos Hle. pose proof (nat_Q_pos outOf Hpos) as Hq.
  assert (H0 : (0 <= nat_Q successes / nat_Q outOf)%Q).
  { apply Qle_shift_div_l; [exact Hq|]. rewrite Qmult_0_l.
    unfold nat_Q. change 0%Q with (inject_Z 0). rewrite <- Zle_Qle. lia. }
  assert (H1 : (nat_Q successes / nat_Q outOf <= 1)%Q).
  { apply Qle_shift_div_r; [exact Hq|]. rewrite Qmult_1_l.
    unfold nat_Q. rewrite <- Zle_Qle. lia. }
  split.
  - change 0 with (Qfloor 0). apply Qfloor_resp_le.
    apply (Qle_trans _ (0 * 100 + (1 # 2))); [discriminate|].
    apply Qplus_le_l. apply Qmult_le_compat_r; [exact H0 | discriminate].
  - change 100 with (Qfloor (1 * 100 + (1 # 2))). apply Qfloor_resp_le.
    apply Qplus_le_l. apply Qmult_le_compat_r; [exact H1 | discriminate].
Qed.

(** X14.  A success-rate heading of the guarded report shows an integer
    between 0 and 100, over a positive number of runs that is at least the
    number of successes. *)
Theorem report_guarded_success_rate_range groupedWorkflowRuns rate successes outOf :
  In (addHeading (SuccessRate rate successes outOf))
     (fst (Part000.report groupedWorkflowRuns)) ->
  exists z,
    rate = Num (inject_Z z) /\ 0 <= z <= 100
    /\ (successes <= outOf)%nat /\ (0 < outOf)%nat.
Proof.
  intros Hin. apply report_guarded_success_rate in Hin.
  destruct Hin as (success & failure & _ & _ & Hpos & -> & -> & ->).
  eexists. split; [reflexivity|]. split; [|split; [lia | exact Hpos]].
  apply round_bounds; lia.
Qed.

Lemma report_guarded_success_rate_range_witness :
  exists z,
    Num 33 = Num (inject_Z z) /\ 0 <= z <= 100 /\ (1 <= 3)%nat /\ (0 < 3)%nat.
Proof.
  apply (report_guarded_success_rate_range
           (fst (getWorkflowRuns one_green_two_red))).
  simpl. tauto.
Defined.

(** ** The breakdown rows of a fetched history *)







(** ** The unguarded report of [src/index.ts] on a fetched history *)

Lemma groupRuns_has workflowRuns key :
  Map_has (groupRuns workflowRuns) key = true
  <-> exists run, In run workflowRuns /\ status run = key.
Proof.
  unfold Map_has. rewrite groupRuns_get. split.
  - destruct (members workflowRuns key) as [|run l] eqn:E; [discriminate|].
    intros _. exists run.
    assert (Hin : In run (members workflowRuns key)) by (rewrite E; left; reflexivity).
    apply filter_In in Hin. destruct Hin as [Hin Hs].
    split; [exact Hin | apply String.eqb_eq, Hs].
  - intros [run [Hin Hs]].
    assert (Hm : In run (members workflowRuns key))
      by (apply filter_In; split; [exact Hin | apply String.eqb_eq, Hs]).
    destruct (members workflowRuns key); [destruct Hm | reflexivity].
Qed.

Lemma history_has source key :
  Map_has (fst (getWorkflowRuns source)) key = true
  <-> exists r, In r (entries_of source) /\ retained r = true
                /\ effective_status r = key.
Proof.
  rewrite getWorkflowRuns_fst, groupRuns_has, collectRuns_fst. split.
  - intros [run [Hin Hs]]. apply in_map_iff in Hin.
    destruct Hin as [r [<- Hr]]. apply filter_In in Hr.
    exists r. simpl in Hs. tauto.
  - intros [r (Hin & Hr & Hs)]. exists (record_of r). split; [|exact Hs].
    apply in_map, filter_In. auto.
Qed.

(** X16.  On a fetched history the report of [src/index.ts] reaches
    [core.summary.write()] exactly when at least one kept entry counts as
    "success" and at least one as "failure"; otherwise it throws after the
    first heading. *)
Theorem report_unguarded_needs_both source :
  (snd (IndexTs.report (fst (getWorkflowRuns source))) = Written
   <-> (exists r, In r (entries_of source) /\ retained r = true
                  /\ effective_status r = "success"%string)
       /\ (exists r, In r (entries_of source) /\ retained r = true
                     /\ effective_status r = "failure"%string))
  /\ (snd (IndexTs.report (fst (getWorkflowRuns source))) <> Written ->
      IndexTs.report (fst (getWorkflowRuns source))
      = ([addHeading
            (WorkflowRunHistory (totalRuns_of (fst (getWorkflowRuns source))))],
         TypeError)).
Proof.
  split.
  - rewrite report_unguarded_outcome, !history_has. reflexivity.
  - unfold IndexTs.report. cbv zeta.
    destruct (Map_get (fst (getWorkflowRuns source)) "success");
      destruct (Map_get (fst (getWorkflowRuns source)) "failure");
      simpl; intros H; try reflexivity. contradiction H. reflexivity.
Qed.

(** ** What the retry loop of [src/index.ts] can end in *)

Lemma resolveWorkflowId_outcomes_from getWorkflowRun fuel : forall lookups,
  (forall j, (j < lookups)%nat ->
             getWorkflowRun j = None \/ getWorkflowRun j = Some 0) ->
  match IndexTs.resolveWorkflowId getWorkflowRun fuel lookups 0 with
  | Resolved workflow_id n =>
      workflow_id <> 0
      /\ exists k, n = S k /\ (k < lookups + fuel)%nat
                   /\ getWorkflowRun k = Some workflow_id
                   /\ forall j, (j < k)%nat ->
                                getWorkflowRun j = None \/ getWorkflowRun j = Some 0
  | Rejected _ => False
  | StillRetrying n =>
      n = (lookups + fuel)%nat
      /\ forall j, (j < n)%nat ->
                   getWorkflowRun j = None \/ getWorkflowRun j = Some 0
  end.
Proof.
  induction fuel as [|fuel IH]; intros lookups Hbefore; simpl.
  - split; [lia|]. intros j Hj. apply Hbefore. lia.
  - assert (Hnext : forall outcome,
               getWorkflowRun lookups = outcome ->
               outcome = None \/ outcome = Some 0 ->
               forall j, (j < S lookups)%nat ->
                         getWorkflowRun j = None \/ getWorkflowRun j = Some 0).
    { intros outcome E Ho j Hj.
      destruct (Nat.eq_dec j lookups) as [->|Hne];
        [rewrite E; exact Ho | apply Hbefore; lia]. }
    destruct (getWorkflowRun lookups) as [data_workflow_id|] eqn:E.
    + destruct (Z.eq_dec data_workflow_id 0) as [->|Hnz].
      * specialize (IH (S lookups) (Hnext _ eq_refl (or_intror eq_refl))).
        replace (S lookups + fuel)%nat with (lookups + S fuel)%nat in IH by lia.
        exact IH.
      * rewrite resolveWorkflowId_nonzero by exact Hnz.
        split; [exact Hnz|]. exists lookups.
        repeat split; [lia | exact E | exact Hbefore].
    + specialize (IH (S lookups) (Hnext _ eq_refl (or_introl eq_refl))).
      replace (S lookups + fuel)%nat with (lookups + S fuel)%nat in IH by lia.
      exact IH.
Qed.

(** X17.  Whatever the lookups do, the loop of [src/index.ts] never raises.
    When it returns an identifier, that identifier is non-zero and is the
    answer of the last lookup made, every earlier lookup having thrown or
    answered 0; while it has not returned, every lookup so far has thrown
    or answered 0. *)
Theorem resolveWorkflowId_outcomes getWorkflowRun fuel :
  match IndexTs.resolveWorkflowId getWorkflowRun fuel 0 0 with
  | Resolved workflow_id lookups =>
      workflow_id <> 0
      /\ exists k, lookups = S k /\ (k < fuel)%nat
                   /\ getWorkflowRun k = Some workflow_id
                   /\ forall j, (j < k)%nat ->
                                getWorkflowRun j = None \/ getWorkflowRun j = Some 0
  | Rejected _ => False
  | StillRetrying lookups =>
      lookups = fuel
      /\ forall j, (j < lookups)%nat ->
                   getWorkflowRun j = None \/ getWorkflowRun j = Some 0
  end.
Proof.
  apply (resolveWorkflowId_outcomes_from getWorkflowRun fuel 0).
  intros j Hj. lia.
Qed.

(** X18.  [summarizeHistory] of [src/index.ts] adds nothing to the summary
    before the workflow is resolved: after any number of iterations there
    is no report exactly when every lookup so far has thrown or answered
    0. *)
Theorem summarizeHistory_waits_for_resolution getWorkflowRun fuel listWorkflowRuns :
  IndexTs.summarizeHistory getWorkflowRun fuel listWorkflowRuns = None
  <-> forall j, (j < fuel)%nat ->
                getWorkflowRun j = None \/ getWorkflowRun j = Some 0.
Proof.
  unfold IndexTs.summarizeHistory.
  pose proof (resolveWorkflowId_outcomes_from getWorkflowRun fuel 0) as H.
  destruct (IndexTs.resolveWorkflowId getWorkflowRun fuel 0 0)
    as [workflow_id n|n|n].
  - split; [discriminate|]. intros Hall. exfalso.
    destruct H as (Hnz & k & _ & Hk & E & _); [intros j Hj; lia|].
    destruct (Hall k Hk) as [E'|E']; rewrite E in E'; [discriminate|].
    injection E' as ->. apply Hnz. reflexivity.
  - destruct H. intros j Hj. lia.
  - split; [|reflexivity]. intros _.
    destruct H as [-> H]; [intros j Hj; lia|]. exact H.
Qed.

(** ** [summarizeHistory] of [src/unnamed/part_000] with its lookups *)

(** X19.  [summarizeHistory] of [src/unnamed/part_000] rejects when the
    run lookup throws or when the title cannot be computed; otherwise the
    report is written, whatever the listing did, and it starts with the
    title and with the number of kept entries. *)
Theorem summarizeHistory_part_000_shape
        getWorkflowRun getWorkflow getContent yaml_load listWorkflowRuns :
  match getWorkflowRun 0%nat with
  | None =>
      summarizeHistory_part_000 getWorkflowRun getWorkflow getContent
                                yaml_load listWorkflowRuns = Throws
  | Some workflow_id =>
      match fetchTitle (getWorkflow workflow_id) getContent yaml_load
                       workflow_id with
      | Throws =>
          summarizeHistory_part_000 getWorkflowRun getWorkflow getContent
                                    yaml_load listWorkflowRuns = Throws
      | Returns heading =>
          exists sections,
            summarizeHistory_part_000 getWorkflowRun getWorkflow getContent
                                      yaml_load listWorkflowRuns
            = Returns
                (heading
                 :: addHeading
                      (TotalRuns
                         (length
                            (filter retained
                                    (entries_of (listWorkflowRuns workflow_id)))))
                 :: sections,
                 Written)
      end
  end.
Proof.
  unfold summarizeHistory_part_000, Part000.resolveWorkflowId.
  destruct (getWorkflowRun 0%nat) as [workflow_id|]; [|reflexivity].
  destruct (fetchTitle (getWorkflow workflow_id) getContent yaml_load workflow_id)
    as [|heading]; [reflexivity|].
  pose proof (totalRuns_counts_retained_aux (listWorkflowRuns workflow_id)) as E.
  unfold Part000.report. cbv zeta. rewrite E.
  eexists. reflexivity.
Qed.

(** ** The workflow-definition lookup *)

Lemma fetchWorkflowYaml_returns getWorkflow getContent yaml_load :
  exists workflowYaml,
    fetchWorkflowYaml getWorkflow getContent yaml_load = Returns workflowYaml.
Proof.
  unfold fetchWorkflowYaml.
  destruct (fetchWorkflowYaml_try getWorkflow getContent yaml_load); eauto.
Qed.

(** X20.  [fetchWorkflowYaml] never throws, and it returns a parsed value
    exactly when the workflow has a non-empty path, the content at that
    path is a file, and the parser returned that value; every other case,
    a throwing request or parser included, gives [undefined]. *)
Theorem fetchWorkflowYaml_total getWorkflow getContent yaml_load :
  exists workflowYaml,
    fetchWorkflowYaml getWorkflow getContent yaml_load = Returns workflowYaml
    /\ forall parsed,
        workflowYaml = Some parsed
        <-> exists path content,
            getWorkflow = Returns path /\ path <> ""%string
            /\ getContent path = Returns (ContentEntry "file" content)
            /\ yaml_load content = Returns (Some parsed).
Proof.
  unfold fetchWorkflowYaml, fetchWorkflowYaml_try.
  destruct getWorkflow as [|path].
  - exists None. split; [reflexivity|]. intros parsed.
    split; [discriminate | intros (p & c & H & _); discriminate H].
  - destruct (String.eqb_spec path "") as [->|Hpath].
    + exists None. split; [reflexivity|]. intros parsed.
      split; [discriminate|].
      intros (p & c & [= <-] & Hp & _). contradiction Hp. reflexivity.
    + destruct (getContent path) as [|[|type content]] eqn:Ec.
      * exists None. split; [reflexivity|]. intros parsed.
        split; [discriminate|].
        intros (p & c & [= <-] & _ & H & _). rewrite Ec in H. discriminate H.
      * exists None. split; [reflexivity|]. intros parsed.
        split; [discriminate|].
        intros (p & c & [= <-] & _ & H & _). rewrite Ec in H. discriminate H.
      * destruct (String.eqb_spec type "file") as [->|Htype].
        -- destruct (yaml_load content) as [|workflowYaml] eqn:Ey.
           ++ exists None. split; [reflexivity|]. intros parsed.
              split; [discriminate|].
              intros (p & c & [= <-] & _ & H & Hy).
              rewrite Ec in H. injection H as <-.
              rewrite Ey in Hy. discriminate Hy.
           ++ exists workflowYaml. split; [reflexivity|]. intros parsed. split.
              ** intros ->. exists path, content. auto.
              ** intros (p & c & [= <-] & _ & H & Hy).
                 rewrite Ec in H. injection H as <-.
                 rewrite Ey in Hy. injection Hy as ->. reflexivity.
        -- exists None. split; [reflexivity|]. intros parsed.
           split; [discriminate|].
           intros (p & c & [= <-] & _ & H & _).
           rewrite Ec in H. injection H as E _. congruence.
Qed.

(** X21.  The title names the workflow exactly when the lookup produced a
    value with a name; computing it throws exactly when the parser returned
    [null]; in every other case, a failing lookup included, the title
    shows the workflow identifier. *)
Theorem fetchTitle_cases getWorkflow getContent yaml_load workflow_id :
  let workflowYaml := fetchWorkflowYaml getWorkflow getContent yaml_load in
  let heading := fetchTitle getWorkflow getContent yaml_load workflow_id in
  (forall name,
      heading = Returns (addHeading (HistoryOfName name))
      <-> workflowYaml = Returns (Some (YamlValue (Some name))))
  /\ (heading = Throws <-> workflowYaml = Returns (Some YamlNull))
  /\ (heading = Returns (addHeading (HistoryOfWorkflow workflow_id))
      <-> workflowYaml = Returns None
          \/ workflowYaml = Returns (Some (YamlValue None))).
Proof.
  cbv zeta. unfold fetchTitle.
  destruct (fetchWorkflowYaml_returns getWorkflow getContent yaml_load)
    as [workflowYaml ->].
  destruct workflowYaml as [[|[name|]]|]; simpl; repeat split;
    try discriminate; try congruence; try tauto;
    try (intros [H|H]; discriminate H).
Qed.

(** ** Exact arithmetic and double precision *)

(** On the inputs of the concrete statements above the two evaluations give
    the same integers. *)
Lemma double_agrees_on_concrete_inputs :
  double_index 50 2 = Some (Math_floor ((50 / 100) * nat_Q 2))
  /\ double_index 100 2 = Some (Math_floor ((100 / 100) * nat_Q 2))
  /\ double_index 99 2 = Some (Math_floor ((99 / 100) * nat_Q 2))
  /\ double_index 90 2 = Some (Math_floor ((90 / 100) * nat_Q 2))
  /\ double_index 99 1 = Some (Math_floor ((99 / 100) * nat_Q 1))
  /\ double_index 50 3 = Some (Math_floor ((50 / 100) * nat_Q 3))
  /\ double_ceil (double_percent 1 2) = Some (spec_percent 1 2)
  /\ double_ceil (double_percent 0 2) = Some (spec_percent 0 2)
  /\ double_ceil (double_percent (-1) 3) = Some (spec_percent (-1) 3)
  /\ double_ceil (double_percent 1 3) = Some (spec_percent 1 3)
  /\ double_ceil (double_percent 2 3) = Some (spec_percent 2 3)
  /\ double_ceil (double_percent 1 1) = Some (spec_percent 1 1)
  /\ double_round (double_percent 1 3)
     = Some (Qfloor (nat_Q 1 / nat_Q 3 * 100 + (1 # 2))).
Proof. repeat split. Qed.

(** Where the exact value is an integer or a half, rounding can move the
    result by one: 58% of 50 runs reads index 28 where
    [floor(58/100 * 50)] is 29, 7 of 25 gives 29% where [ceil(7/25 * 100)]
    is 28, and 23 of 40 gives 57% where [round(23/40 * 100)] is 58. *)
Lemma double_differs_from_exact :
  double_index 58 50 = Some 28
  /\ Math_floor ((58 / 100) * nat_Q 50) = 29
  /\ double_ceil (double_percent 7 25) = Some 29
  /\ spec_percent 7 25 = 28
  /\ double_round (double_percent 23 40) = Some 57
  /\ Qfloor (nat_Q 23 / nat_Q 40 * 100 + (1 # 2)) = 58.
Proof. repeat split. Qed.
